(** * Signal routing and causal attribution: a shallow embedding

    The development follows three source files of the repository:
    - the semantic scorer ([SemanticScorer], in the unnamed part 002),
    - [causal-finance/semantic-router.js] ([SemanticRouter]),
    - [causal-finance/causal-attribution.js] ([CausalAttribution]),
    and the callers of the scorer: [ETHExtractor] (in the unnamed part
    002), [causal-finance/causal-extractor.js] ([CausalExtractor]) and
    [causal-finance/yield-extractor.js] ([Alice] and [Bob]).

    Conventions of the embedding.
    - A JavaScript number is a value of [JS.num]: an exact rational, or one
      of NaN, +Infinity, -Infinity.  Arithmetic is the IEEE-754 arithmetic
      of the source on these values without rounding, overflow or a signed
      zero; the special values are produced and propagated as JavaScript
      does ([x / 0], [Infinity - Infinity], comparisons with NaN, ...).
    - An object literal used as a lookup table ([weights], [signalRoutes],
      [chainModifiers], [strategyProfits], [chains]) is a finite map from
      its own property names; a missing key reads as [None] (JavaScript's
      [undefined]).  Properties inherited from [Object.prototype] are not
      part of the model.
    - A [Map] is a finite map ([gmap]); its keys are strings, or strings
      and [undefined] where the source stores under a property that may
      be missing.
    - [Date.now()] and [Math.random()] are inputs of the operation that
      reads them; [console.log] is not modelled.
    - An [async] method is the function from its inputs to its outcome
      (returned value or thrown error) and the state it leaves.
    - A loop whose number of turns depends on a number takes a bound on
      the tests of its condition and gives [None] when the bound is
      reached before the loop ends. *)

From Stdlib Require Import QArith Qround Lqa.
From stdpp Require Import gmap strings list fin_maps sorting.

Local Open Scope string_scope.

(** ** JavaScript values *)

Module JS.

(** Numbers. *)
Inductive num : Type :=
  | Fin (q : Q)
  | NaN
  | PInf
  | NInf.

(** A numeric literal of the source, in lowest terms. *)
Definition lit (q : Q) : num := Fin (Qred q).

Definition is_nan (x : num) : bool :=
  match x with NaN => true | _ => false end.

Definition is_finite (x : num) : bool :=
  match x with Fin _ => true | _ => false end.

(** The infinity with the sign of [q]; NaN when [q] is zero. *)
Definition inf_signed (positive : bool) (q : Q) : num :=
  match (q ?= 0)%Q with
  | Eq => NaN
  | Gt => if positive then PInf else NInf
  | Lt => if positive then NInf else PInf
  end.

Definition add (x y : num) : num :=
  match x, y with
  | NaN, _ | _, NaN => NaN
  | Fin a, Fin b => Fin (Qred (a + b))
  | PInf, NInf | NInf, PInf => NaN
  | PInf, _ | _, PInf => PInf
  | NInf, _ | _, NInf => NInf
  end.

Definition sub (x y : num) : num :=
  match x, y with
  | NaN, _ | _, NaN => NaN
  | Fin a, Fin b => Fin (Qred (a - b))
  | PInf, PInf | NInf, NInf => NaN
  | PInf, _ | _, NInf => PInf
  | NInf, _ | _, PInf => NInf
  end.

Definition mul (x y : num) : num :=
  match x, y with
  | NaN, _ | _, NaN => NaN
  | Fin a, Fin b => Fin (Qred (a * b))
  | Fin a, PInf | PInf, Fin a => inf_signed true a
  | Fin a, NInf | NInf, Fin a => inf_signed false a
  | PInf, PInf | NInf, NInf => PInf
  | PInf, NInf | NInf, PInf => NInf
  end.

Definition div (x y : num) : num :=
  match x, y with
  | NaN, _ | _, NaN => NaN
  | Fin a, Fin b =>
      if Qeq_bool b 0 then inf_signed true a else Fin (Qred (a / b))
  | Fin _, (PInf | NInf) => Fin 0
  | PInf, Fin b => if Qle_bool 0 b then PInf else NInf
  | NInf, Fin b => if Qle_bool 0 b then NInf else PInf
  | (PInf | NInf), (PInf | NInf) => NaN
  end.

(** [x <= y]; false as soon as one side is NaN. *)
Definition leb (x y : num) : bool :=
  match x, y with
  | NaN, _ | _, NaN => false
  | Fin a, Fin b => Qle_bool a b
  | NInf, _ | _, PInf => true
  | _, _ => false
  end.

(** [x < y]. *)
Definition ltb (x y : num) : bool :=
  match x, y with
  | NaN, _ | _, NaN => false
  | Fin a, Fin b => negb (Qle_bool b a)
  | PInf, _ | _, NInf => false
  | _, _ => true
  end.

(** [x >= y] and [x > y]. *)
Definition geb (x y : num) : bool := leb y x.
Definition gtb (x y : num) : bool := ltb y x.

(** [x === y] on numbers: equal values, and NaN differs from itself. *)
Definition eqb (x y : num) : bool := leb x y && leb y x.

(** [Math.max(x, y)]. *)
Definition max (x y : num) : num :=
  match x, y with
  | NaN, _ | _, NaN => NaN
  | _, _ => if leb x y then y else x
  end.

(** [Math.pow(x, n)] for a natural exponent [n]. *)
Fixpoint pow (x : num) (n : nat) : num :=
  match n with
  | O => Fin 1
  | S n' => mul x (pow x n')
  end.

(** ToBoolean on a number: [0] and NaN are falsy. *)
Definition truthy (x : num) : bool :=
  match x with
  | Fin q => negb (Qeq_bool q 0)
  | NaN => false
  | PInf | NInf => true
  end.

(** [o || d] where [o] is a table read or an optional numeric property. *)
Definition or_num (o : option num) (d : num) : num :=
  match o with
  | Some v => if truthy v then v else d
  | None => d
  end.

(** [Math.floor(x)]. *)
Definition floor (x : num) : num :=
  match x with
  | Fin q => Fin (inject_Z (Qfloor q))
  | _ => x
  end.

(** [a || b] on optional strings: [undefined] and the empty string are
    falsy. *)
Definition or_str (a b : option string) : option string :=
  match a with
  | Some s => if String.eqb s "" then b else Some s
  | None => b
  end.

(** [Array.prototype.sort(comparefn)].  The sort is stable and looks only
    at the sign of [comparefn x y]: a positive value places [x] after [y],
    and NaN counts as [+0].  Insertion from the right is the stable sort by
    that test. *)
Section Sort.
Context {A : Type} (comparefn : A -> A -> num).

Definition placed_after (x y : A) : bool := gtb (comparefn x y) (Fin 0).

Fixpoint sort_insert (x : A) (l : list A) : list A :=
  match l with
  | [] => [x]
  | y :: l' => if placed_after x y then y :: sort_insert x l' else x :: l
  end.

Definition sort (l : list A) : list A := foldr sort_insert [] l.
End Sort.

#[local] Set Warnings "-register-all".

(** Values that the program stores without looking inside them, and the
    image of its records on the heap. An object is the list of its
    properties in creation order. *)
Inductive value : Type :=
  | VUndefined
  | VNull
  | VBool (b : bool)
  | VNum (n : num)
  | VStr (s : string)
  | VArr (items : list value)
  | VObj (props : list (string * value)).

(** ToBoolean. *)
Definition truthy_value (v : value) : bool :=
  match v with
  | VUndefined | VNull => false
  | VBool b => b
  | VNum n => truthy n
  | VStr s => negb (String.eqb s "")
  | VArr _ | VObj _ => true
  end.

(** [v || d]. *)
Definition or_value (v d : value) : value := if truthy_value v then v else d.

(** [obj[key]] on a plain object. *)
Definition get_prop (key : string) (props : list (string * value)) : value :=
  match list_find (fun p => String.eqb (fst p) key) props with
  | Some (_, (_, v)) => v
  | None => VUndefined
  end.

(** [obj[key] = v]: an existing property keeps its place. *)
Fixpoint set_prop (key : string) (v : value) (props : list (string * value))
    : list (string * value) :=
  match props with
  | [] => [(key, v)]
  | (k, x) :: rest =>
      if String.eqb k key then (k, v) :: rest else (k, x) :: set_prop key v rest
  end.

(** A JSON document: what [JSON.stringify] writes and [JSON.parse] reads.
    The text itself is not modelled; a document stands for its text. *)
Inductive json : Type :=
  | JNull
  | JBool (b : bool)
  | JNumber (q : Q)
  | JString (s : string)
  | JArray (items : list json)
  | JObject (members : list (string * json)).

(** [JSON.stringify(v)]: [None] is the result [undefined].  A non-finite
    number is written as [null], an [undefined] array item as [null], and a
    property whose value is [undefined] is left out. *)
Fixpoint stringify (v : value) : option json :=
  match v with
  | VUndefined => None
  | VNull => Some JNull
  | VBool b => Some (JBool b)
  | VNum (Fin q) => Some (JNumber q)
  | VNum _ => Some JNull
  | VStr s => Some (JString s)
  | VArr items =>
      Some (JArray (map (fun x => default JNull (stringify x)) items))
  | VObj props =>
      Some (JObject
        ((fix members (ps : list (string * value)) : list (string * json) :=
            match ps with
            | [] => []
            | (k, x) :: rest =>
                match stringify x with
                | Some j => (k, j) :: members rest
                | None => members rest
                end
            end) props))
  end.

(** [JSON.parse]. *)
Fixpoint parse (j : json) : value :=
  match j with
  | JNull => VNull
  | JBool b => VBool b
  | JNumber q => VNum (Fin q)
  | JString s => VStr s
  | JArray items => VArr (map parse items)
  | JObject members => VObj (map (fun m => (fst m, parse (snd m))) members)
  end.

(** The values [JSON.stringify] writes without loss: no [undefined] and
    no NaN or infinity, at any depth. *)
Fixpoint storable (v : value) : bool :=
  match v with
  | VUndefined => false
  | VNum n => is_finite n
  | VArr items => forallb storable items
  | VObj props => forallb (fun p => storable (snd p)) props
  | _ => true
  end.

(** The members [JSON.stringify] writes for the properties of an object. *)
Definition written_members (props : list (string * value))
    : list (string * json) :=
  omap (fun p => pair (fst p) <$> stringify (snd p)) props.

(** What a call does: it returns a value or throws. *)
Record Error := { message : string }.

Inductive Outcome (A : Type) : Type :=
  | Returned (a : A)
  | Thrown (e : Error).
Global Arguments Returned {A} a.
Global Arguments Thrown {A} e.

End JS.

Notation "# q" := (JS.lit q%Q) (at level 5, q at level 1, format "# q").

(** ** The semantic scorer *)

Module Scorer.

Record Event := { ev_type : string }.

Record Cascade := {
  semanticWeight : JS.num;
  cascadePotential : JS.num;
  priority : string
}.

Definition weight_table : list (string * JS.num) :=
  [ ("parameterChange", #10);
    ("goingConcern", #10);
    ("firstOfType", #10);
    ("governanceVote", #9);
    ("insiderAction", #9);
    ("liquidationTrigger", #7);
    ("oracleUpdate", #6);
    ("largeTx", #3);
    ("routineTx", #1);
    ("spam", #0) ].

Definition weights : gmap string JS.num := list_to_map weight_table.

Definition scoreEvent (event : Event) : JS.num :=
  JS.or_num (weights !! ev_type event) #0.

Definition calculateCascade (event : Event) : Cascade :=
  let score := scoreEvent event in
  let cascadePotential := JS.pow score 2 in
  {| semanticWeight := score;
     cascadePotential := cascadePotential;
     priority := if JS.geb score #7 then "URGENT" else "MONITOR" |}.

End Scorer.

(** ** The semantic router *)

Module Router.
Import JS.

Record Signal := {
  sig_type : string;
  weight : num;
  cascadePotential : option num;
  sig_txHash : option string;
  sig_id : option string
}.

Record Route := {
  route_chains : list string;
  route_strategies : list string;
  minProfit : num;
  route_urgency : string
}.

Record ChainConfig := {
  rpc : string;
  chainId : Z;
  blockTime : num;
  mevStrategies : list string
}.

Record Opportunity := {
  chain : string;
  signal : Signal;
  expectedProfit : num;
  strategies : list string;
  urgency : string
}.

Record ExecResult := {
  success : bool;
  profit : num;
  txHash : option string;
  gasUsed : option num;
  error : option string
}.

Record Attribution := {
  att_signalId : option string;
  att_signalType : string;
  att_timestamp : num;
  att_profit : num;
  att_txHash : option string;
  att_gasUsed : option num
}.

(** [new ethers.JsonRpcProvider(url)]. *)
Record Provider := { url : string }.

(** The three [Math.random()] reads of the default branch of
    [executeStrategy], in program order. *)
Record Draws := { draw_profit : num; draw_hash : num; draw_gas : num }.

(** What the router calls but does not decide.  The four strategy methods
    stand for the venue calls: in the source their bodies are random
    simulations of the on-chain call, here each is a function from the
    opportunity to a result or a thrown error.  [processEnv] is
    [process.env]; [hexDigits x] is [x.toString(16).substr(2, 64)]. *)
Record World := {
  processEnv : gmap string string;
  executeLiquidation : Opportunity -> Provider -> Outcome ExecResult;
  executeSandwich : Opportunity -> Provider -> Outcome ExecResult;
  executeFlashLoan : Opportunity -> Provider -> Outcome ExecResult;
  executeMassLiquidation : Opportunity -> Provider -> Outcome ExecResult;
  hexDigits : num -> string
}.

(** The mutable fields of a [SemanticRouter], with two traces of what it
    did (newest first): the events it emitted and the opportunities it
    handed to [executeStrategy]. *)
Record State := {
  attributionMap : gmap (option string) Attribution;
  profitsBySignal : gmap string num;
  emitted : list (string * Attribution);
  dispatched : list Opportunity
}.

Definition envOr (w : World) (key default : string) : string :=
  match processEnv w !! key with
  | Some v => if String.eqb v "" then default else v
  | None => default
  end.

Definition chains (w : World) : gmap string ChainConfig :=
  list_to_map
    [ ("ethereum",
       {| rpc := envOr w "ETH_RPC" "https://eth-mainnet.g.alchemy.com/v2/demo";
          chainId := 1; blockTime := #12;
          mevStrategies := ["liquidation"; "sandwich"; "arbitrage"] |});
      ("arbitrum",
       {| rpc := envOr w "ARB_RPC" "https://arb1.arbitrum.io/rpc";
          chainId := 42161; blockTime := #0.25;
          mevStrategies := ["fastLiquidation"; "crossDexArb"] |});
      ("base",
       {| rpc := envOr w "BASE_RPC" "https://mainnet.base.org";
          chainId := 8453; blockTime := #2;
          mevStrategies := ["signalBroadcast"; "attribution"] |});
      ("polygon",
       {| rpc := envOr w "POLYGON_RPC" "https://polygon-rpc.com";
          chainId := 137; blockTime := #2;
          mevStrategies := ["microLiquidation"; "yieldFarm"] |}) ].

Definition route_table : list (string * Route) :=
  [ ("CRITICAL_PARAMETER_CHANGE",
     {| route_chains := ["ethereum"];
        route_strategies := ["liquidation"; "positionExit"];
        minProfit := #0.1; route_urgency := "immediate" |});
    ("LIQUIDATION_THRESHOLD_BREACH",
     {| route_chains := ["ethereum"; "arbitrum"];
        route_strategies := ["liquidation"; "flashloan"];
        minProfit := #0.05; route_urgency := "immediate" |});
    ("CROSS_CHAIN_YIELD_DELTA",
     {| route_chains := ["ethereum"; "arbitrum"; "polygon"];
        route_strategies := ["bridgeArbitrage"; "yieldCapture"];
        minProfit := #0.02; route_urgency := "fast" |});
    ("ORACLE_PRICE_DEVIATION",
     {| route_chains := ["ethereum"; "arbitrum"];
        route_strategies := ["oracleArbitrage"; "sandwich"];
        minProfit := #0.03; route_urgency := "immediate" |});
    ("BANKRUPTCY_FILING_DETECTED",
     {| route_chains := ["ethereum"];
        route_strategies := ["massLiquidation"; "shortPosition"];
        minProfit := #1.0; route_urgency := "medium" |});
    ("REGULATORY_ACTION_PENDING",
     {| route_chains := ["ethereum"; "arbitrum"];
        route_strategies := ["positionExit"; "hedgeSetup"];
        minProfit := #0.5; route_urgency := "medium" |});
    ("MEV_OPPORTUNITY_SURFACE",
     {| route_chains := ["ethereum"; "arbitrum"];
        route_strategies := ["sandwich"; "backrun"];
        minProfit := #0.01; route_urgency := "immediate" |});
    ("FLASHLOAN_ARBITRAGE_GAP",
     {| route_chains := ["ethereum"; "arbitrum"; "polygon"];
        route_strategies := ["flashloan"; "multiDexArb"];
        minProfit := #0.02; route_urgency := "immediate" |}) ].

Definition signalRoutes : gmap string Route := list_to_map route_table.

Definition chainModifier_table : list (string * num) :=
  [ ("ethereum", #1.0); ("arbitrum", #0.7); ("polygon", #0.5); ("base", #0.3) ].

Definition chainModifiers : gmap string num := list_to_map chainModifier_table.

Definition strategyProfit_table : list (string * num) :=
  [ ("liquidation", #0.08);
    ("sandwich", #0.02);
    ("arbitrage", #0.015);
    ("flashloan", #0.025);
    ("massLiquidation", #0.15);
    ("bridgeArbitrage", #0.01);
    ("oracleArbitrage", #0.03);
    ("positionExit", #0.05) ].

Definition strategyProfits : gmap string num := list_to_map strategyProfit_table.

(** A table read in arithmetic position: [undefined] becomes NaN. *)
Definition toNumber (o : option num) : num :=
  match o with Some v => v | None => NaN end.

(** The rate one strategy contributes: [strategyProfits[strategy] || 0.01]. *)
Definition strategyRate (strategy : string) : num :=
  or_num (strategyProfits !! strategy) #0.01.

(** The loop over [route.strategies], from [maxStrategyProfit = 0]. *)
Definition maxStrategyProfit (strategies : list string) : num :=
  foldl (fun acc strategy => JS.max acc (strategyRate strategy)) #0 strategies.

Definition calculateExpectedProfit
    (signal : Signal) (chainName : string) (route : Route) : num :=
  let baseProfit := div (weight signal) #10 in
  let cascadeMultiplier :=
    add #1 (div (or_num (cascadePotential signal) #0) #100) in
  mul (mul (mul baseProfit (toNumber (chainModifiers !! chainName)))
           (maxStrategyProfit (route_strategies route)))
      cascadeMultiplier.

(** The loop of [routeSignal] over [route.chains]: one opportunity per
    chain whose expected profit reaches [route.minProfit], in the order of
    the route's chain list. *)
Definition opportunitiesFor (signal : Signal) (route : Route) : list Opportunity :=
  omap (fun chainName =>
          let expectedProfit := calculateExpectedProfit signal chainName route in
          if geb expectedProfit (minProfit route)
          then Some {| chain := chainName;
                       signal := signal;
                       expectedProfit := expectedProfit;
                       strategies := route_strategies route;
                       urgency := route_urgency route |}
          else None)
       (route_chains route).

(** The comparator [(a, b) => b.expectedProfit - a.expectedProfit]. *)
Definition byProfit (a b : Opportunity) : num :=
  sub (expectedProfit b) (expectedProfit a).

Definition rankedOpportunities (signal : Signal) (route : Route) : list Opportunity :=
  sort byProfit (opportunitiesFor signal route).

(** The [default] branch of the switch in [executeStrategy]. *)
Definition simulate (w : World) (opportunity : Opportunity) (r : Draws) : ExecResult :=
  {| success := true;
     profit := mul (expectedProfit opportunity)
                   (add #0.8 (mul (draw_profit r) #0.4));
     txHash := Some ("0x" ++ hexDigits w (draw_hash r));
     gasUsed := Some (add #200000 (floor (mul (draw_gas r) #300000)));
     error := None |}.

(** The switch on [opportunity.strategies[0]]. *)
Definition dispatch (w : World) (opportunity : Opportunity)
    (provider : Provider) (r : Draws) : Outcome ExecResult :=
  let primary := head (strategies opportunity) in
  if decide (primary = Some "liquidation")
  then executeLiquidation w opportunity provider
  else if decide (primary = Some "sandwich")
  then executeSandwich w opportunity provider
  else if decide (primary = Some "flashloan")
  then executeFlashLoan w opportunity provider
  else if decide (primary = Some "massLiquidation")
  then executeMassLiquidation w opportunity provider
  else Returned (simulate w opportunity r).

(** The value built in the [catch] clause. *)
Definition failure (e : Error) : ExecResult :=
  {| success := false; profit := #0; txHash := None; gasUsed := None;
     error := Some (message e) |}.

(** [executeStrategy].  The provider is created before the [try]: reading
    [.rpc] of an unconfigured chain throws a TypeError that is not caught. *)
Definition executeStrategy (w : World) (opportunity : Opportunity) (r : Draws)
    : Outcome ExecResult :=
  match chains w !! chain opportunity with
  | None =>
      Thrown {| message :=
        "Cannot read properties of undefined (reading 'rpc')" |}
  | Some config =>
      let provider := {| url := rpc config |} in
      match dispatch w opportunity provider r with
      | Returned result => Returned result
      | Thrown e => Returned (failure e)
      end
  end.

(** [trackAttribution(signal, result)] at time [now]. *)
Definition trackAttribution (signal : Signal) (result : option ExecResult)
    (now : num) (st : State) : State :=
  match result with
  | None => st
  | Some result =>
      if negb (success result) then st
      else
        let attribution :=
          {| att_signalId := or_str (sig_txHash signal) (sig_id signal);
             att_signalType := sig_type signal;
             att_timestamp := now;
             att_profit := profit result;
             att_txHash := txHash result;
             att_gasUsed := gasUsed result |} in
        let currentProfit := or_num (profitsBySignal st !! sig_type signal) #0 in
        {| attributionMap := <[txHash result := attribution]> (attributionMap st);
           profitsBySignal :=
             <[sig_type signal := add currentProfit (profit result)]>
               (profitsBySignal st);
           emitted := ("attribution", attribution) :: emitted st;
           dispatched := dispatched st |}
  end.

(** [routeSignal(signal)]: the value the promise settles to ([None] is
    [null]) and the router's state afterwards. *)
Definition routeSignal (w : World) (signal : Signal) (now : num) (r : Draws)
    (st : State) : Outcome (option ExecResult) * State :=
  match signalRoutes !! sig_type signal with
  | None => (Returned None, st)
  | Some route =>
      match rankedOpportunities signal route with
      | best :: _ =>
          let st1 :=
            {| attributionMap := attributionMap st;
               profitsBySignal := profitsBySignal st;
               emitted := emitted st;
               dispatched := best :: dispatched st |} in
          match executeStrategy w best r with
          | Returned result =>
              (Returned (Some result),
               trackAttribution signal (Some result) now st1)
          | Thrown e => (Thrown e, st1)
          end
      | [] => (Returned None, st)
      end
  end.

(** *** Vocabulary of the statements *)



(** The test [expectedProfit >= route.minProfit] of the routing loop. *)
Definition qualifies (signal : Signal) (route : Route) (chainName : string)
    : bool :=
  geb (calculateExpectedProfit signal chainName route) (minProfit route).


(** The state once [best] has been handed to [executeStrategy]. *)
Definition noted (st : State) (best : Opportunity) : State :=
  {| attributionMap := attributionMap st;
     profitsBySignal := profitsBySignal st;
     emitted := emitted st;
     dispatched := best :: dispatched st |}.

(** The attribution map holds a record for a signal of this type. *)
Definition recorded (signal : Signal) (st : State) : Prop :=
  ∃ key attribution,
    attributionMap st !! key = Some attribution ∧
    att_signalType attribution = sig_type signal.

(** Every failed execution leaves a record for its signal. *)
Definition failures_recorded : Prop :=
  ∀ (w : World) (signal : Signal) (now : num) (r : Draws) (st st' : State)
    (result : ExecResult),
    routeSignal w signal now r st = (Returned (Some result), st') ->
    success result = false ->
    recorded signal st'.

(** *** Sample inputs *)

(** The signal routed by the file when it is run directly. *)
Definition testSignal : Signal :=
  {| sig_type := "LIQUIDATION_THRESHOLD_BREACH";
     weight := #9.5;
     cascadePotential := Some #85;
     sig_txHash := None;
     sig_id := None |}.


Definition breachOnEthereum : Opportunity :=
  {| chain := "ethereum"; signal := testSignal;
     expectedProfit := mul (mul (mul #0.95 #1.0) #0.08) #1.85;
     strategies := ["liquidation"; "flashloan"];
     urgency := "immediate" |}.


(** A venue call that settles, and one that throws. *)
Definition settled (p : num) (ref : string) (gas : num)
    : Opportunity -> Provider -> Outcome ExecResult :=
  fun _ _ =>
    Returned {| success := true; profit := p; txHash := Some ref;
                gasUsed := Some gas; error := None |}.

Definition reverted (reason : string)
    : Opportunity -> Provider -> Outcome ExecResult :=
  fun _ _ => Thrown {| message := reason |}.

Definition calmWorld : World :=
  {| processEnv := ∅;
     executeLiquidation := settled #3 "0xa1" #150000;
     executeSandwich := settled #1 "0xa2" #300000;
     executeFlashLoan := settled #2 "0xa3" #500000;
     executeMassLiquidation := settled #9 "0xa4" #3000000;
     hexDigits := fun _ => "8" |}.

Definition brokenWorld : World :=
  {| processEnv := ∅;
     executeLiquidation := reverted "execution reverted";
     executeSandwich := reverted "execution reverted";
     executeFlashLoan := reverted "execution reverted";
     executeMassLiquidation := reverted "execution reverted";
     hexDigits := fun _ => "8" |}.

Definition noDraws : Draws :=
  {| draw_profit := #0.5; draw_hash := #0.5; draw_gas := #0.5 |}.

Definition freshRouter : State :=
  {| attributionMap := ∅; profitsBySignal := ∅; emitted := [];
     dispatched := [] |}.

End Router.

(** ** The causal attribution ledger *)

Module Attribution.
Import JS.

Inductive Status := BROADCASTED | TRIGGERED | PROFITABLE | COMPLETED.

Definition status_name (s : Status) : string :=
  match s with
  | BROADCASTED => "BROADCASTED"
  | TRIGGERED => "TRIGGERED"
  | PROFITABLE => "PROFITABLE"
  | COMPLETED => "COMPLETED"
  end.

(** [semanticSource], kept by the chain as [origin]. *)
Record Origin := {
  o_type : string;
  o_source : option string;
  o_weight : num;
  o_anchor : option string
}.

(** The argument of [recordEvent]. *)
Record EventData := {
  ed_type : string;
  ed_txHash : option string;
  ed_gasUsed : option num;
  ed_response : value
}.

(** An element of [chain.events]. *)
Record ChainEvent := {
  ce_timestamp : num;
  ce_type : string;
  ce_txHash : option string;
  ce_gasUsed : num;
  ce_response : value
}.

Record Chain := {
  origin : Origin;
  jam : value;
  events : list ChainEvent;
  profit : num;
  status : Status;
  semanticROI : option num
}.

(** The argument of [recordProfit]. *)
Record ProfitData := {
  pd_txHash : string;
  pd_amountETH : num;
  pd_gasSpent : option num;
  pd_type : option string
}.

(** A value of the [profits] map. *)
Record Profit := {
  p_signalId : string;
  p_txHash : string;
  p_amountETH : num;
  p_gasSpent : num;
  p_netProfit : num;
  p_timestamp : num;
  p_liquidationType : string
}.

(** What [recordProfit] resolves to when the chain exists. *)
Record ProfitReport := {
  r_signalId : string;
  r_profit : num;
  r_semanticROI : num;
  r_cascadeMultiplier : num
}.

Record Ledger := {
  chains : gmap string Chain;
  profits : gmap string Profit
}.

(** The file at [dbPath]: its content when it holds a JSON document, the
    number of completed writes, and whether the next [fs.writeFile] is
    rejected. *)
Record Disk := {
  file : option json;
  writes : nat;
  rejects : bool
}.

(** *** Heap images: the objects as [JSON.stringify] sees them *)

(** A property read that may be [undefined]. *)
Definition opt_str (o : option string) : value :=
  match o with Some s => VStr s | None => VUndefined end.

(** A property the caller's object has or lacks. *)
Definition own_prop (key : string) (o : option string) : list (string * value) :=
  match o with Some s => [(key, VStr s)] | None => [] end.

Definition origin_value (o : Origin) : value :=
  VObj ([ ("type", VStr (o_type o)); ("weight", VNum (o_weight o)) ]
        ++ own_prop "source" (o_source o)
        ++ own_prop "anchor" (o_anchor o)).

Definition event_value (e : ChainEvent) : value :=
  VObj [ ("timestamp", VNum (ce_timestamp e));
         ("type", VStr (ce_type e));
         ("txHash", opt_str (ce_txHash e));
         ("gasUsed", VNum (ce_gasUsed e));
         ("response", ce_response e) ].

Definition chain_value (c : Chain) : value :=
  VObj ([ ("origin", origin_value (origin c));
          ("jam", jam c);
          ("events", VArr (map event_value (events c)));
          ("profit", VNum (profit c));
          ("status", VStr (status_name (status c))) ]
        ++ match semanticROI c with
           | Some roi => [("semanticROI", VNum roi)]
           | None => []
           end).

Definition profit_value (p : Profit) : value :=
  VObj [ ("signalId", VStr (p_signalId p));
         ("txHash", VStr (p_txHash p));
         ("amountETH", VNum (p_amountETH p));
         ("gasSpent", VNum (p_gasSpent p));
         ("netProfit", VNum (p_netProfit p));
         ("timestamp", VNum (p_timestamp p));
         ("liquidationType", VStr (p_liquidationType p)) ].

(** The two maps of the object as the persistence code handles them: maps
    from string keys to whatever values they hold. *)
Record Maps := {
  m_chains : gmap string value;
  m_profits : gmap string value
}.

Definition ledger_maps (l : Ledger) : Maps :=
  {| m_chains := chain_value <$> chains l;
     m_profits := profit_value <$> profits l |}.

(** *** Operations *)

(** [tagJAM(jamData, semanticSource)]; [signalId] is what
    [generateSignalId] produced (a hash of the source and the clock with a
    random nonce). *)
Definition tagJAM (jamData : list (string * value)) (semanticSource : Origin)
    (signalId : string) (now : num) (l : Ledger) : value * Ledger :=
  let taggedJAM :=
    VObj (set_prop "attribution"
            (VObj [ ("signalId", VStr signalId);
                    ("semanticWeight", VNum (o_weight semanticSource));
                    ("sourceType", VStr (o_type semanticSource));
                    ("timestamp", VNum now);
                    ("causalAnchor",
                      or_value (opt_str (o_anchor semanticSource)) VNull);
                    ("expectedCascade", VNum (pow (o_weight semanticSource) 2)) ])
            jamData) in
  (taggedJAM,
   {| chains :=
        <[signalId := {| origin := semanticSource;
                         jam := taggedJAM;
                         events := [];
                         profit := #0;
                         status := BROADCASTED;
                         semanticROI := None |}]> (chains l);
      profits := profits l |}).

(** [recordEvent(signalId, eventData)] at time [now]. *)
Definition recordEvent (signalId : string) (eventData : EventData) (now : num)
    (l : Ledger) : Ledger :=
  match chains l !! signalId with
  | None => l
  | Some chain =>
      let event :=
        {| ce_timestamp := now;
           ce_type := ed_type eventData;
           ce_txHash := ed_txHash eventData;
           ce_gasUsed := or_num (ed_gasUsed eventData) #0;
           ce_response := or_value (ed_response eventData) VNull |} in
      let status' :=
        if String.eqb (ed_type eventData) "BOT_RESPONSE" then TRIGGERED
        else if String.eqb (ed_type eventData) "LIQUIDATION_EXECUTED" then PROFITABLE
        else status chain in
      {| chains :=
           <[signalId := {| origin := origin chain;
                            jam := jam chain;
                            events := events chain ++ [event];
                            profit := profit chain;
                            status := status';
                            semanticROI := semanticROI chain |}]> (chains l);
         profits := profits l |}
  end.

(** [new Map(entries)]: later entries win. *)
Definition mapOfEntries {A} (entries : list (string * A)) : gmap string A :=
  list_to_map (reverse entries).

(** [Array.from(map.entries())] as a value. *)
Definition entries_value (m : gmap string value) : value :=
  VArr (map (fun e => VArr [VStr (fst e); snd e]) (map_to_list m)).

(** [saveToDatabase()] at time [now]. *)
Definition saveToDatabase (m : Maps) (now : num) (d : Disk)
    : Outcome unit * Disk :=
  let data :=
    VObj [ ("chains", entries_value (m_chains m));
           ("profits", entries_value (m_profits m));
           ("timestamp", VNum now) ] in
  if rejects d
  then (Thrown {| message := "write failed" |}, d)
  else (Returned tt,
        {| file := stringify data; writes := S (writes d); rejects := rejects d |}).

(** [recordProfit(signalId, profitData)] at time [now]: what the promise
    settles to ([Returned None] is [undefined]), the ledger and the disk
    afterwards. *)
Definition recordProfit (signalId : string) (profitData : ProfitData)
    (now : num) (l : Ledger) (d : Disk)
    : Outcome (option ProfitReport) * Ledger * Disk :=
  match chains l !! signalId with
  | None => (Returned None, l, d)
  | Some chain =>
      let gasSpent := or_num (pd_gasSpent profitData) #0 in
      let profit_ :=
        {| p_signalId := signalId;
           p_txHash := pd_txHash profitData;
           p_amountETH := pd_amountETH profitData;
           p_gasSpent := gasSpent;
           p_netProfit := sub (pd_amountETH profitData) gasSpent;
           p_timestamp := now;
           p_liquidationType :=
             default "UNKNOWN" (or_str (pd_type profitData) None) |} in
      let semanticROI_ :=
        mul (div (p_netProfit profit_) (o_weight (origin chain))) #100 in
      let l' :=
        {| chains :=
             <[signalId := {| origin := origin chain;
                              jam := jam chain;
                              events := events chain;
                              profit := add (profit chain) (p_netProfit profit_);
                              status := COMPLETED;
                              semanticROI := Some semanticROI_ |}]> (chains l);
           profits := <[pd_txHash profitData := profit_]> (profits l) |} in
      match saveToDatabase (ledger_maps l') now d with
      | (Thrown e, d') => (Thrown e, l', d')
      | (Returned _, d') =>
          (Returned (Some {| r_signalId := signalId;
                             r_profit := p_netProfit profit_;
                             r_semanticROI := semanticROI_;
                             r_cascadeMultiplier :=
                               div (p_netProfit profit_) #0.02 |}),
           l', d')
      end
  end.

(** [new Map(iterable)] on a value read back from a document:
    [undefined], [null] and the empty string give the empty map, an array
    gives the map of its items, each item being an object read at [0] and
    [1]; anything else throws ([None]).  Keys are strings, as
    [saveToDatabase] writes them: an item with another key is outside the
    model and counts as a failed load. *)
Definition entryOf (item : value) : option (string * value) :=
  match item with
  | VArr (VStr k :: v :: _) => Some (k, v)
  | VArr [VStr k] => Some (k, VUndefined)
  | VObj props =>
      match get_prop "0" props with
      | VStr k => Some (k, get_prop "1" props)
      | _ => None
      end
  | _ => None
  end.

Definition newMap (v : value) : option (gmap string value) :=
  match v with
  | VUndefined | VNull => Some ∅
  | VStr s => if String.eqb s "" then Some ∅ else None
  | VArr items => mapOfEntries <$> mapM entryOf items
  | _ => None
  end.

(** [v[key]] for a name that is not an array index: throws ([None]) on
    [null] and [undefined], and is [undefined] on the other primitives and
    on arrays. *)
Definition read_prop (key : string) (v : value) : option value :=
  match v with
  | VObj props => Some (get_prop key props)
  | VUndefined | VNull => None
  | _ => Some VUndefined
  end.

(** [loadFromDatabase()].  A failed read, parse or [new Map] is caught and
    leaves the fields as they are at that point: [this.chains] is assigned
    before [parsed.profits] is looked at. *)
Definition loadFromDatabase (d : Disk) (m : Maps) : Maps :=
  match file d with
  | None => m
  | Some document =>
      let parsed := parse document in
      match read_prop "chains" parsed ≫= newMap with
      | None => m
      | Some chains' =>
          let m1 := {| m_chains := chains'; m_profits := m_profits m |} in
          match read_prop "profits" parsed ≫= newMap with
          | None => m1
          | Some profits' => {| m_chains := chains'; m_profits := profits' |}
          end
      end
  end.

(** *** Vocabulary of the statements *)

(** A call on the ledger's two entry points, and a sequence of them. *)
Inductive Call :=
  | CallRecordEvent (signalId : string) (eventData : EventData) (now : num)
  | CallRecordProfit (signalId : string) (profitData : ProfitData) (now : num).

Definition step (s : Ledger * Disk) (c : Call) : Ledger * Disk :=
  match c with
  | CallRecordEvent signalId eventData now =>
      (recordEvent signalId eventData now (fst s), snd s)
  | CallRecordProfit signalId profitData now =>
      let '(_, l, d) := recordProfit signalId profitData now (fst s) (snd s) in
      (l, d)
  end.

Definition run (calls : list Call) (s : Ledger * Disk) : Ledger * Disk :=
  foldl step s calls.

(** The order Broadcasted, Triggered, Profitable, Completed. *)
Definition rank (s : Status) : nat :=
  match s with
  | BROADCASTED => 0
  | TRIGGERED => 1
  | PROFITABLE => 2
  | COMPLETED => 3
  end.

Definition advances (before after : Status) : Prop :=
  (rank before ≤ rank after)%nat.

Definition statusOf (signalId : string) (l : Ledger) : option Status :=
  status <$> chains l !! signalId.

Definition profitOf (signalId : string) (l : Ledger) : option num :=
  profit <$> chains l !! signalId.

(** [amountETH - (gasSpent || 0)]. *)
Definition netProfit (profitData : ProfitData) : num :=
  sub (pd_amountETH profitData) (or_num (pd_gasSpent profitData) #0).

(** The status of a chain only moves forward in the order. *)
Definition status_only_advances : Prop :=
  ∀ (calls : list Call) (s : Ledger * Disk) (signalId : string)
    (before after : Status),
    statusOf signalId (fst s) = Some before ->
    statusOf signalId (fst (run calls s)) = Some after ->
    advances before after.

(** A profit recorded a second time does not change the chain's total. *)
Definition profit_counted_once : Prop :=
  ∀ (signalId : string) (profitData : ProfitData) (now1 now2 : num)
    (l : Ledger) (d : Disk),
    let s1 := recordProfit signalId profitData now1 l d in
    let s2 := recordProfit signalId profitData now2 s1.1.2 s1.2 in
    profitOf signalId s2.1.2 = profitOf signalId s1.1.2.

(** Saving the maps of a ledger and loading them back gives the same
    maps. *)
Definition reload_is_identity : Prop :=
  ∀ (l : Ledger) (now : num) (d : Disk),
    rejects d = false ->
    loadFromDatabase (snd (saveToDatabase (ledger_maps l) now d))
      (ledger_maps l)
    = ledger_maps l.

Definition storable_map (m : gmap string value) : Prop :=
  map_Forall (fun _ v => storable v = true) m.

Definition entry_value (e : string * value) : value :=
  VArr [VStr (fst e); snd e].

(** *** Sample inputs *)

Definition emptyLedger : Ledger := {| chains := ∅; profits := ∅ |}.

Definition emptyDisk : Disk :=
  {| file := None; writes := 0; rejects := false |}.

(** The source of the demonstration at the end of the file. *)
Definition feeChange : Origin :=
  {| o_type := "parameterChange";
     o_source := Some "MakerDAO stability fee increase";
     o_weight := #10;
     o_anchor := Some "0xabc123..." |}.

Definition alertJam : list (string * value) :=
  [("type", VStr "LIQUIDATION_ALERT"); ("data", VStr "...")].

Definition sigId : string := "SIG-00c0ffee-1a2b3c4d".

Definition taggedLedger : Ledger :=
  snd (tagJAM alertJam feeChange sigId #1700000000000 emptyLedger).

Definition oneEther : ProfitData :=
  {| pd_txHash := "0xfeed"; pd_amountETH := #1; pd_gasSpent := None;
     pd_type := Some "LIQUIDATION" |}.

Definition botResponse : EventData :=
  {| ed_type := "BOT_RESPONSE"; ed_txHash := Some "0xbeef";
     ed_gasUsed := Some #21000; ed_response := VStr "ack" |}.

Definition liquidationExecuted : EventData :=
  {| ed_type := "LIQUIDATION_EXECUTED"; ed_txHash := Some "0xfeed";
     ed_gasUsed := Some #150000; ed_response := VNull |}.

(** A chain taken from the tag to its recorded profit. *)
Definition settledChain : Ledger * Disk :=
  run [ CallRecordEvent sigId botResponse #1700000000100;
        CallRecordEvent sigId liquidationExecuted #1700000000200;
        CallRecordProfit sigId oneEther #1700000000300 ]
      (taggedLedger, emptyDisk).

(** The same profit recorded twice: the ledger after each call. *)
Definition recordedTwice : Ledger * Ledger :=
  let '(_, l1, d1) :=
    recordProfit sigId oneEther #1700000000300 taggedLedger emptyDisk in
  let '(_, l2, _) := recordProfit sigId oneEther #1700000000400 l1 d1 in
  (l1, l2).

(** A chain whose source has weight 0, and its recorded profit. *)
Definition mempoolSpam : Origin :=
  {| o_type := "spam";
     o_source := Some "mempool";
     o_weight := #0;
     o_anchor := Some "0xdef456..." |}.

Definition spamLedger : Ledger :=
  snd (tagJAM alertJam mempoolSpam sigId #1700000000000 emptyLedger).

Definition spamSettled : Outcome (option ProfitReport) * Ledger * Disk :=
  recordProfit sigId oneEther #1700000000300 spamLedger emptyDisk.

(** [chains.get(sigId).semanticROI]. *)
Definition readROI (m : Maps) : option value :=
  match m_chains m !! sigId with
  | Some (VObj props) => Some (get_prop "semanticROI" props)
  | _ => None
  end.

End Attribution.

(** ** Counts, ranges and draws *)

Module Count.
Import JS.

(** A length or a size, as a number. *)
Definition of_nat (n : nat) : num := Fin (inject_Z (Z.of_nat n)).

(** The number [x] lies in the half-open interval from [lo] to [hi]. *)
Definition within (lo hi : Q) (x : num) : Prop :=
  ∃ q, x = Fin q ∧ (lo <= q)%Q ∧ (q < hi)%Q.

(** The number [x] lies in the closed interval from [lo] to [hi]. *)
Definition between (lo hi : Q) (x : num) : Prop :=
  ∃ q, x = Fin q ∧ (lo <= q)%Q ∧ (q <= hi)%Q.

(** A stream of values of [Math.random()]: [rand k] is what the call
    number [k] returned, and every draw is a number from 0 up to, not
    including, 1. *)
Definition unitStream (rand : nat -> num) : Prop :=
  ∀ k, within 0 1 (rand k).

End Count.

(** ** The attribution report of the router *)

Module RouterReport.
Import JS Router.

Record TopSignal := {
  top_type : string;
  top_profit : num;
  top_percentage : string
}.

Record Report := {
  totalSignals : nat;
  totalProfit : num;
  profitByType : gmap string num;
  topSignals : list TopSignal
}.

(** The comparator [(a, b) => b[1] - a[1]] on the entries of
    [profitsBySignal]. *)
Definition byTotal (a b : string * num) : num := sub (snd b) (snd a).

(** [getAttributionReport()]; [toFixed2 x] is [x.toFixed(2)]. *)
Definition getAttributionReport (toFixed2 : num -> string) (st : State)
    : Report :=
  let entries := map_to_list (profitsBySignal st) in
  let totalProfit := foldl (fun total e => add total (snd e)) #0 entries in
  let profitByType :=
    foldl (fun byType e => <[fst e := snd e]> byType) ∅ entries in
  let sorted := take 5 (sort byTotal entries) in
  {| totalSignals := size (attributionMap st);
     totalProfit := totalProfit;
     profitByType := profitByType;
     topSignals :=
       map (fun e =>
              {| top_type := fst e;
                 top_profit := snd e;
                 top_percentage :=
                   toFixed2 (mul (div (snd e) totalProfit) #100) ++ "%" |})
           sorted |}.

(** *** Sample inputs *)

(** [x.toFixed(2)] for the sample reports. *)
Definition plainPercent (x : num) : string := "0.00".

(** A router that has booked profits for six signal types under three
    transactions. *)
Definition busyRouter : State :=
  {| attributionMap :=
       list_to_map
         [ (Some "0xa1",
            {| att_signalId := None;
               att_signalType := "LIQUIDATION_THRESHOLD_BREACH";
               att_timestamp := #1700000000000; att_profit := #3;
               att_txHash := Some "0xa1"; att_gasUsed := Some #150000 |});
           (Some "0xa2",
            {| att_signalId := None;
               att_signalType := "MEV_OPPORTUNITY_SURFACE";
               att_timestamp := #1700000001000; att_profit := #1;
               att_txHash := Some "0xa2"; att_gasUsed := Some #300000 |});
           (Some "0xa3",
            {| att_signalId := None;
               att_signalType := "FLASHLOAN_ARBITRAGE_GAP";
               att_timestamp := #1700000002000; att_profit := #2;
               att_txHash := Some "0xa3"; att_gasUsed := Some #500000 |}) ];
     profitsBySignal :=
       list_to_map
         [ ("LIQUIDATION_THRESHOLD_BREACH", #3);
           ("MEV_OPPORTUNITY_SURFACE", #1);
           ("FLASHLOAN_ARBITRAGE_GAP", #2);
           ("ORACLE_PRICE_DEVIATION", #0.4);
           ("CROSS_CHAIN_YIELD_DELTA", #0.07);
           ("BANKRUPTCY_FILING_DETECTED", #12) ];
     emitted := [];
     dispatched := [] |}.


End RouterReport.

(** ** Further vocabulary for the router *)

Module RouterTerms.
Import JS Router Count.


(** The strategies with a method of their own in [executeStrategy]. *)
Definition namedStrategies : list (option string) :=
  [Some "liquidation"; Some "sandwich"; Some "flashloan";
   Some "massLiquidation"].


(** What [Math.random()] returns: a number from 0 up to, not including,
    1. *)
Definition unitDraws (r : Draws) : Prop :=
  within 0 1 (draw_profit r) ∧ within 0 1 (draw_hash r) ∧
  within 0 1 (draw_gas r).

(** *** Sample inputs *)


Definition solanaRoute : Route :=
  {| route_chains := ["solana"; "ethereum"];
     route_strategies := ["liquidation"];
     minProfit := #0.05;
     route_urgency := "fast" |}.

Definition yieldDelta : Signal :=
  {| sig_type := "CROSS_CHAIN_YIELD_DELTA"; weight := #8;
     cascadePotential := Some #64; sig_txHash := Some "0x5157";
     sig_id := None |}.

Definition yieldOnPolygon : Opportunity :=
  {| chain := "polygon"; signal := yieldDelta;
     expectedProfit := #0.0656;
     strategies := ["bridgeArbitrage"; "yieldCapture"];
     urgency := "fast" |}.



End RouterTerms.

(** ** The strategy methods of the router *)

Module Strategies.
Import JS Router Count.

(** In this module [hex x] is [x.toString(16).substr(2, 64)] and [rand k]
    is what the call number [k] of [Math.random()] returned, counted from
    the start of the method.  The provider is not used by the methods. *)

(** The loop of [executeLiquidation] from turn [i] on: the total and the
    number of turns made, or [None] when the loop has not ended after
    [fuel] tests of its condition. *)
Fixpoint liquidation_loop (fuel : nat) (rand : nat -> num) (positions : num)
    (i : nat) (totalProfit : num) : option (num * nat) :=
  match fuel with
  | O => None
  | S fuel' =>
      if ltb (of_nat i) positions
      then
        let collateral := add #10 (mul (rand (2 * i)%nat) #90) in
        let bonus := add #0.05 (mul (rand (2 * i + 1)%nat) #0.08) in
        let profit := mul collateral bonus in
        liquidation_loop fuel' rand positions (S i) (add totalProfit profit)
      else Some (totalProfit, i)
  end.

(** [executeLiquidation(opportunity, provider)]. *)
Definition executeLiquidation (fuel : nat) (hex : num -> string)
    (rand : nat -> num) (opportunity : Opportunity) : option ExecResult :=
  let positions :=
    floor (div (toNumber (cascadePotential (signal opportunity))) #20) in
  '(totalProfit, turns) ← liquidation_loop fuel rand positions 0 #0;
  Some {| success := true;
          profit := totalProfit;
          txHash := Some ("0x" ++ hex (rand (2 * turns)%nat));
          gasUsed := Some (mul positions #150000);
          error := None |}.

(** [executeSandwich(opportunity, provider)]. *)
Definition executeSandwich (hex : num -> string) (rand : nat -> num)
    (opportunity : Opportunity) : ExecResult :=
  let targetSize := add #50 (mul (rand 0%nat) #200) in
  let slippage := add #0.01 (mul (rand 1%nat) #0.02) in
  let profit := mul (mul targetSize slippage) #0.5 in
  {| success := true;
     profit := profit;
     txHash := Some ("0x" ++ hex (rand 2%nat));
     gasUsed := Some #300000;
     error := None |}.

(** [executeFlashLoan(opportunity, provider)]. *)
Definition executeFlashLoan (hex : num -> string) (rand : nat -> num)
    (opportunity : Opportunity) : ExecResult :=
  let loanSize := add #1000 (mul (rand 0%nat) #4000) in
  let arbSpread := add #0.002 (mul (rand 1%nat) #0.008) in
  let profit := mul loanSize arbSpread in
  {| success := true;
     profit := profit;
     txHash := Some ("0x" ++ hex (rand 2%nat));
     gasUsed := Some #500000;
     error := None |}.

(** The loop of [executeMassLiquidation] from wave [wave] on; the first
    draw of the method gave [waves]. *)
Fixpoint wave_loop (fuel : nat) (rand : nat -> num) (waves : num)
    (wave : nat) (totalProfit : num) : option (num * nat) :=
  match fuel with
  | O => None
  | S fuel' =>
      if ltb (of_nat wave) waves
      then
        let positions :=
          add #10 (floor (mul (rand (1 + 3 * wave)%nat) #20)) in
        let avgSize := add #20 (mul (rand (2 + 3 * wave)%nat) #80) in
        let bonus := add #0.08 (mul (rand (3 + 3 * wave)%nat) #0.05) in
        let waveProfit := mul (mul positions avgSize) bonus in
        wave_loop fuel' rand waves (S wave) (add totalProfit waveProfit)
      else Some (totalProfit, wave)
  end.

(** [executeMassLiquidation(opportunity, provider)]. *)
Definition executeMassLiquidation (fuel : nat) (hex : num -> string)
    (rand : nat -> num) (opportunity : Opportunity) : option ExecResult :=
  let waves := add #3 (floor (mul (rand 0%nat) #5)) in
  '(totalProfit, turns) ← wave_loop fuel rand waves 0 #0;
  Some {| success := true;
          profit := totalProfit;
          txHash := Some ("0x" ++ hex (rand (1 + 3 * turns)%nat));
          gasUsed := Some (mul waves #1000000);
          error := None |}.

(** *** Sample inputs *)

Definition quarters : nat -> num := fun _ => #0.25.

Definition eights : num -> string := fun _ => "8".

End Strategies.

(** ** Analytics of the attribution ledger *)

Module LedgerAnalytics.
Import JS Attribution Count.

(** An entry of the object built by [analyzeSemanticYield]; [avgProfit] is
    added by the second pass. *)
Record TypeStats := {
  st_count : num;
  st_totalProfit : num;
  st_avgROI : num;
  st_successRate : num;
  st_avgProfit : option num
}.

Definition freshStats : TypeStats :=
  {| st_count := #0; st_totalProfit := #0; st_avgROI := #0;
     st_successRate := #0; st_avgProfit := None |}.

(** [status === 'COMPLETED' || status === 'PROFITABLE']. *)
Definition succeeded (s : Status) : bool :=
  match s with
  | COMPLETED | PROFITABLE => true
  | _ => false
  end.

(** The body of the loop over the chains. *)
Definition tally (analysis : gmap string TypeStats) (chain : Chain)
    : gmap string TypeStats :=
  let type := o_type (origin chain) in
  let data := default freshStats (analysis !! type) in
  <[type :=
      {| st_count := add (st_count data) #1;
         st_totalProfit := add (st_totalProfit data) (profit chain);
         st_avgROI := st_avgROI data;
         st_successRate :=
           if succeeded (status chain)
           then add (st_successRate data) #1
           else st_successRate data;
         st_avgProfit := st_avgProfit data |}]> analysis.

(** The body of the loop over the keys of the analysis. *)
Definition average (data : TypeStats) : TypeStats :=
  {| st_count := st_count data;
     st_totalProfit := st_totalProfit data;
     st_avgROI := st_avgROI data;
     st_successRate := mul (div (st_successRate data) (st_count data)) #100;
     st_avgProfit := Some (div (st_totalProfit data) (st_count data)) |}.

(** The analysis of the chains taken in the order of the list. *)
Definition analyze (chainList : list Chain) : gmap string TypeStats :=
  average <$> foldl tally ∅ chainList.

(** [Array.from(this.chains.values())]. *)
Definition chainValues (l : Ledger) : list Chain :=
  snd <$> map_to_list (chains l).

(** [analyzeSemanticYield()]. *)
Definition analyzeSemanticYield (l : Ledger) : gmap string TypeStats :=
  analyze (chainValues l).

Record Summary := {
  totalSignals : num;
  completedSignals : num;
  successRate : num;
  totalProfitETH : num;
  avgProfitPerSignal : num
}.

Record Dashboard := {
  summary : Summary;
  semanticAnalysis : gmap string TypeStats;
  recentProfits : list Profit;
  timestamp : num
}.

Definition isCompleted (c : Chain) : bool :=
  match status c with COMPLETED => true | _ => false end.

(** The comparator [(a, b) => b.timestamp - a.timestamp]. *)
Definition byTimestamp (a b : Profit) : num :=
  sub (p_timestamp b) (p_timestamp a).

(** [getDashboard()] at time [now]. *)
Definition getDashboard (now : num) (l : Ledger) : Dashboard :=
  let totalSignals := of_nat (size (chains l)) in
  let completedSignals :=
    of_nat (length (List.filter isCompleted (chainValues l))) in
  let totalProfit :=
    foldl (fun sum chain => add sum (profit chain)) #0 (chainValues l) in
  let semanticAnalysis := analyzeSemanticYield l in
  let recentProfits :=
    take 10 (sort byTimestamp (snd <$> map_to_list (profits l))) in
  {| summary :=
       {| totalSignals := totalSignals;
          completedSignals := completedSignals;
          successRate := mul (div completedSignals totalSignals) #100;
          totalProfitETH := totalProfit;
          avgProfitPerSignal := div totalProfit totalSignals |};
     semanticAnalysis := semanticAnalysis;
     recentProfits := recentProfits;
     timestamp := now |}.

(** The number of elements of a list that pass a test. *)
Definition countIf {A} (test : A -> bool) (l : list A) : nat :=
  length (List.filter test l).


End LedgerAnalytics.

(** ** Further vocabulary for the ledger *)

Module LedgerTerms.
Import JS Attribution Count LedgerAnalytics.

Definition isEventOn (signalId : string) (c : Call) : bool :=
  match c with
  | CallRecordEvent target _ _ => String.eqb target signalId
  | CallRecordProfit _ _ _ => false
  end.

(** The number of [recordEvent] calls made on a chain. *)
Definition eventCallsOn (signalId : string) (calls : list Call) : nat :=
  countIf (isEventOn signalId) calls.



(** *** Sample inputs *)

(** A disk that rejects every write. *)
Definition fullDisk : Disk :=
  {| file := None; writes := 0; rejects := true |}.

End LedgerTerms.

(** ** The callers of the scorer *)

Module Arrays.
Import JS.

(** [items[x]] for a number [x]: the element at [x] when [x] is a whole
    number within the array, [undefined] otherwise. *)
Definition at_index {A} (items : list A) (x : num) : option A :=
  match x with
  | Fin q =>
      if Qeq_bool q (inject_Z (Qfloor q)) && Qle_bool 0 q
      then items !! Z.to_nat (Qfloor q)
      else None
  | _ => None
  end.

(** [items[Math.floor(Math.random() * items.length)]], [random] being what
    [Math.random()] returned. *)
Definition pick {A} (items : list A) (random : num) : option A :=
  at_index items (floor (mul random (Count.of_nat (length items)))).

End Arrays.

(** *** [ETHExtractor] *)

Module EthExtractor.
Import JS Scorer Count Arrays.

(** An entry of the array in [getNextSignal]. *)
Record Candidate := {
  cd_type : string;
  cd_protocol : string;
  cd_eventType : string
}.

Record Signal := {
  es_type : string;
  es_protocol : string;
  es_eventType : string;
  es_semanticWeight : num;
  es_cascadePotential : num
}.

Record Target := {
  tg_address : string;
  tg_protocol : string;
  tg_healthFactor : num;
  tg_collateral : num
}.

Definition signals : list Candidate :=
  [ {| cd_type := "MakerDAO stability fee +2%"; cd_protocol := "maker";
       cd_eventType := "parameterChange" |};
    {| cd_type := "Aave collateral factor -5%"; cd_protocol := "aave";
       cd_eventType := "parameterChange" |};
    {| cd_type := "Compound oracle update"; cd_protocol := "compound";
       cd_eventType := "oracleUpdate" |};
    {| cd_type := "Celsius bankruptcy filing"; cd_protocol := "all";
       cd_eventType := "goingConcern" |} ].

(** [getNextSignal()], [random] being the value [Math.random()] returned.
    Reading [eventType] off a missing array element throws. *)
Definition getNextSignal (random : num) : Outcome Signal :=
  match pick signals random with
  | None =>
      Thrown {| message := "Cannot read properties of undefined" |}
  | Some signal =>
      let cascade := calculateCascade {| ev_type := cd_eventType signal |} in
      Returned {| es_type := cd_type signal;
                  es_protocol := cd_protocol signal;
                  es_eventType := cd_eventType signal;
                  es_semanticWeight := semanticWeight cascade;
                  es_cascadePotential := cascadePotential cascade |}
  end.

Definition protocolCycle : list string := ["aave"; "compound"; "maker"].

(** The target pushed by turn [i] of the loop in [findTargets]; [hex x] is
    [x.toString(16).substr(2, 40)] and [rand k] is what the call number
    [k] of [Math.random()] returned, counted from the start of
    [findTargets]. *)
Definition targetAt (hex : num -> string) (rand : nat -> num)
    (signal : Signal) (i : nat) : Target :=
  {| tg_address := "0x" ++ hex (rand (3 * i)%nat);
     tg_protocol :=
       if String.eqb (es_protocol signal) "all"
       then nth (i mod 3) protocolCycle ""
       else es_protocol signal;
     tg_healthFactor := add #1.0 (mul (rand (3 * i + 1)%nat) #0.05);
     tg_collateral := mul (rand (3 * i + 2)%nat) #100 |}.

(** The loop [for (let i = 0; i < numTargets; i++)], from turn [i] on;
    [None] when it has not ended after [fuel] tests of its condition. *)
Fixpoint findTargets_loop (fuel : nat) (hex : num -> string)
    (rand : nat -> num) (signal : Signal) (numTargets : num) (i : nat)
    (targets : list Target) : option (list Target) :=
  match fuel with
  | O => None
  | S fuel' =>
      if ltb (of_nat i) numTargets
      then findTargets_loop fuel' hex rand signal numTargets (S i)
             (targets ++ [targetAt hex rand signal i])
      else Some targets
  end.

(** [findTargets(signal)]. *)
Definition findTargets (fuel : nat) (hex : num -> string)
    (rand : nat -> num) (signal : Signal) : option (list Target) :=
  let numTargets := floor (div (es_cascadePotential signal) #10) in
  findTargets_loop fuel hex rand signal numTargets 0 [].

(** The rates of an entry of [this.protocols]; the addresses are only
    passed on to the contracts. *)
Record Protocol := {
  liquidationBonus : option num;
  liquidationIncentive : option num;
  liquidationPenalty : option num
}.

Definition protocol_table : list (string * Protocol) :=
  [ ("aave", {| liquidationBonus := Some #0.05;
                liquidationIncentive := None;
                liquidationPenalty := None |});
    ("compound", {| liquidationBonus := None;
                    liquidationIncentive := Some #0.08;
                    liquidationPenalty := None |});
    ("maker", {| liquidationBonus := None;
                 liquidationIncentive := None;
                 liquidationPenalty := Some #0.13 |}) ].

Definition protocols : gmap string Protocol := list_to_map protocol_table.

(** [a || b || c] as it enters a product: [undefined] multiplies to NaN. *)
Definition bonusOf (protocol : Protocol) : num :=
  or_num (liquidationBonus protocol)
    (or_num (liquidationIncentive protocol)
       (default NaN (liquidationPenalty protocol))).

(** [liquidate(target)].  [send target] is how the contract call and the
    wait for its receipt end, from building the contract to the receipt;
    the function reads [protocol.liquidationBonus] before its [try], so a
    protocol missing from the table throws. *)
Definition liquidate (send : Target -> Outcome unit) (target : Target)
    : Outcome num :=
  match protocols !! tg_protocol target with
  | None =>
      Thrown {| message := "Cannot read properties of undefined" |}
  | Some protocol =>
      let bonus := bonusOf protocol in
      let liquidationAmount := mul (tg_collateral target) #0.5 in
      let profit := mul liquidationAmount bonus in
      if String.eqb (tg_protocol target) "aave"
      then match send target with
           | Returned _ => Returned profit
           | Thrown _ => Returned #0
           end
      else if String.eqb (tg_protocol target) "compound"
      then match send target with
           | Returned _ => Returned profit
           | Thrown _ => Returned #0
           end
      else Returned profit
  end.

(** Step 4 of the loop of [runDaemon]: [this.profits += profit] for each
    target in turn; a liquidation that throws ends the daemon. *)
Fixpoint liquidateAll (send : Target -> Outcome unit)
    (targets : list Target) (total : num) : Outcome num :=
  match targets with
  | [] => Returned total
  | target :: rest =>
      match liquidate send target with
      | Thrown e => Thrown e
      | Returned profit => liquidateAll send rest (add total profit)
      end
  end.

(** One turn of the loop of [runDaemon] on the running total
    [this.profits]: [random] is the draw of [getNextSignal] and [rand]
    the draws of [findTargets]. *)
Definition daemonTurn (fuel : nat) (hex : num -> string)
    (send : Target -> Outcome unit) (random : num) (rand : nat -> num)
    (total : num) : option (Outcome num) :=
  match getNextSignal random with
  | Thrown e => Some (Thrown e)
  | Returned signal =>
      if geb (es_semanticWeight signal) #8
      then targets ← findTargets fuel hex rand signal;
           Some (liquidateAll send targets total)
      else Some (Returned total)
  end.

(** *** Vocabulary and sample inputs *)

Definition listedProtocol (name : string) : Prop :=
  name = "aave" ∨ name = "compound" ∨ name = "maker".

(** What a target found for [signal] at turn [i] looks like. *)
Definition plausible (signal : Signal) (i : nat) (target : Target) : Prop :=
  between 1 (Qmake 21 20) (tg_healthFactor target) ∧
  within 0 100 (tg_collateral target) ∧
  listedProtocol (tg_protocol target) ∧
  (if String.eqb (es_protocol signal) "all"
   then protocolCycle !! (i mod 3)%nat = Some (tg_protocol target)
   else tg_protocol target = es_protocol signal).

(** The rate the table holds for a protocol. *)
Definition listedBonus (name : string) (bonus : num) : Prop :=
  (name = "aave" ∧ bonus = #0.05) ∨
  (name = "compound" ∧ bonus = #0.08) ∨
  (name = "maker" ∧ bonus = #0.13).

Definition halves : nat -> num := fun _ => #0.5.

Definition noDigits : num -> string := fun _ => "8".


Definition refused : Target -> Outcome unit :=
  fun _ => Thrown {| message := "insufficient funds" |}.



Definition makerTarget : Target :=
  {| tg_address := "0x8"; tg_protocol := "maker";
     tg_healthFactor := #1.02; tg_collateral := #40 |}.

Definition aaveTarget : Target :=
  {| tg_address := "0x8"; tg_protocol := "aave";
     tg_healthFactor := #1.02; tg_collateral := #40 |}.

End EthExtractor.

(** *** [CausalExtractor] *)

Module CausalExtractor.
Import JS Scorer Count Arrays.

Record Template := {
  tp_type : string;
  tp_target : string;
  tp_weight : num
}.

(** What [createSignal] returns: the properties spread from the drawn
    element ([None] when the element is missing: spreading [undefined]
    adds nothing) and the three properties written after them. *)
Record Signal := {
  cs_drawn : option Template;
  cs_semanticWeight : num;
  cs_cascadePotential : num;
  cs_timestamp : num
}.

Definition signals : list Template :=
  [ {| tp_type := "PARAMETER_CHANGE"; tp_target := "MakerDAO";
       tp_weight := #10 |};
    {| tp_type := "LIQUIDATION_CASCADE"; tp_target := "Aave";
       tp_weight := #9 |};
    {| tp_type := "ORACLE_DIVERGENCE"; tp_target := "Compound";
       tp_weight := #8 |} ].








(** *** Sample inputs *)


End CausalExtractor.

(** *** [Alice] and [Bob] *)

Module YieldExtractor.
Import JS Scorer Count Arrays.

(** An entry of the array in [watch]. *)
Record Notice := {
  nt_type : string;
  nt_proposal : option string;
  nt_filing : option string;
  nt_effect : string;
  nt_eventType : string
}.

Record Signal := {
  ys_notice : Notice;
  ys_semanticWeight : num;
  ys_cascadePotential : num
}.

Definition signals : list Notice :=
  [ {| nt_type := "MakerDAO"; nt_proposal := Some "Raise stability fee";
       nt_filing := None; nt_effect := "LIQUIDATE_VAULTS";
       nt_eventType := "parameterChange" |};
    {| nt_type := "Compound"; nt_proposal := Some "Adjust collateral";
       nt_filing := None; nt_effect := "LIQUIDATE_POSITIONS";
       nt_eventType := "parameterChange" |};
    {| nt_type := "SEC"; nt_proposal := None;
       nt_filing := Some "8-K bankruptcy"; nt_effect := "LIQUIDATE_DEFI";
       nt_eventType := "goingConcern" |} ].

(** [Alice.watch()], [random] being the draw. *)
Definition watch (random : num) : Outcome Signal :=
  match pick signals random with
  | None =>
      Thrown {| message := "Cannot read properties of undefined" |}
  | Some signal =>
      let cascade := calculateCascade {| ev_type := nt_eventType signal |} in
      Returned {| ys_notice := signal;
                  ys_semanticWeight := semanticWeight cascade;
                  ys_cascadePotential := cascadePotential cascade |}
  end.

(** The three bots, [random] being the draw each makes. *)
Definition liquidateVaults (random : num) : num := mul random #10.
Definition liquidatePositions (random : num) : num := mul random #15.
Definition liquidateDefi (random : num) : num := mul random #20.

Definition strategy_table : list (string * (num -> num)) :=
  [ ("LIQUIDATE_VAULTS", liquidateVaults);
    ("LIQUIDATE_POSITIONS", liquidatePositions);
    ("LIQUIDATE_DEFI", liquidateDefi) ].

Definition strategies : gmap string (num -> num) :=
  list_to_map strategy_table.

(** [Bob.extract(signal)], [random] being the draw of the bot that runs;
    calling a strategy the table lacks throws. *)
Definition extract (signal : Signal) (random : num) : Outcome num :=
  match strategies !! nt_effect (ys_notice signal) with
  | None =>
      Thrown {| message := "strategies[signal.effect] is not a function" |}
  | Some strategy =>
      let baseProfit := strategy random in
      let actualProfit :=
        mul baseProfit (div (ys_cascadePotential signal) #10) in
      Returned actualProfit
  end.

(** The effects [strategies] has a function for. *)
Definition knownEffect (effect : string) : Prop :=
  effect = "LIQUIDATE_VAULTS" ∨ effect = "LIQUIDATE_POSITIONS"
  ∨ effect = "LIQUIDATE_DEFI".

(** The callback of [setInterval] in [mine] on the running total. *)
Definition mineTurn (random1 random2 : num) (totalProfit : num)
    : Outcome num :=
  match watch random1 with
  | Thrown e => Thrown e
  | Returned signal =>
      match extract signal random2 with
      | Thrown e => Thrown e
      | Returned profit => Returned (add totalProfit profit)
      end
  end.

End YieldExtractor.

(** * Properties *)

(** ** Order and arithmetic on numbers *)

Module NumFacts.
Import JS.

Lemma Qle_bool_false (a b : Q) : Qle_bool a b = false <-> (b < a)%Q.
Proof.
  split; intros H.
  - apply Qnot_le_lt. intros Hle. apply Qle_bool_iff in Hle. congruence.
  - destruct (Qle_bool a b) eqn:E; [|reflexivity].
    apply Qle_bool_iff in E. exfalso. apply (Qlt_not_le _ _ H E).
Qed.



Lemma leb_trans x y z : leb x y = true -> leb y z = true -> leb x z = true.
Proof.
  destruct x, y, z; simpl; try done.
  rewrite !Qle_bool_iff. apply Qle_trans.
Qed.

Lemma ltb_leb x y :
  is_nan x = false -> is_nan y = false -> ltb x y = negb (leb y x).
Proof. destruct x, y; simpl; try done. Qed.


Lemma ltb_leb_weak x y : ltb x y = true -> leb x y = true.
Proof.
  destruct x as [a| | |], y as [b| | |]; simpl; try done.
  rewrite negb_true_iff, Qle_bool_false, Qle_bool_iff. apply Qlt_le_weak.
Qed.

(** The sign test on [y - x] is the comparison [x < y]. *)
Lemma gtb_sub x y :
  is_nan x = false -> is_nan y = false ->
  gtb (sub y x) (Fin 0) = ltb x y.
Proof.
  destruct x as [a| | |], y as [b| | |]; simpl; try done.
  intros _ _. unfold gtb; simpl. f_equal.
  destruct (Qle_bool b a) eqn:E.
  - apply Qle_bool_iff. apply Qle_bool_iff in E. rewrite Qred_correct. lra.
  - apply Qle_bool_false. apply Qle_bool_false in E. rewrite Qred_correct. lra.
Qed.




End NumFacts.

(** ** The sort, for a comparator [(a, b) => key(b) - key(a)] *)

Module SortFacts.
Import JS NumFacts.

Section SortByKey.
Context {A : Type} (key : A -> num).

Let descending (a b : A) : num := sub (key b) (key a).
Let numeric (x : A) : Prop := is_nan (key x) = false.

Lemma placed_after_ltb x y :
  numeric x -> numeric y ->
  placed_after descending x y = ltb (key x) (key y).
Proof. intros Hx Hy. unfold placed_after, descending. by apply gtb_sub. Qed.

Lemma sort_insert_perm x l : sort_insert descending x l ≡ₚ x :: l.
Proof.
  induction l as [|y l IH]; simpl; [done|].
  destruct (placed_after descending x y); [|done].
  rewrite IH. apply Permutation_swap.
Qed.

Lemma sort_perm l : sort descending l ≡ₚ l.
Proof.
  induction l as [|x l IH]; simpl; [done|].
  rewrite sort_insert_perm. by rewrite IH.
Qed.

Lemma sort_insert_sorted x l :
  numeric x -> Forall numeric l ->
  StronglySorted (fun a b => leb (key b) (key a) = true) l ->
  StronglySorted (fun a b => leb (key b) (key a) = true)
                 (sort_insert descending x l).
Proof.
  intros Hx Hl Hs. induction Hs as [|y l Hs IH Hy]; simpl.
  - repeat constructor.
  - apply Forall_cons in Hl as [Hny Hl].
    rewrite placed_after_ltb by done.
    destruct (ltb (key x) (key y)) eqn:E.
    + constructor; [by apply IH|].
      rewrite sort_insert_perm. constructor; [|done].
      by apply ltb_leb_weak.
    + assert (leb (key y) (key x) = true) as Hyx.
      { rewrite ltb_leb in E by done. by apply negb_false_iff in E. }
      constructor; [by constructor|].
      constructor; [done|].
      eapply Forall_impl; [exact Hy|]. simpl. intros z Hz.
      by eapply leb_trans.
Qed.

Lemma sort_sorted l :
  Forall numeric l ->
  StronglySorted (fun a b => leb (key b) (key a) = true) (sort descending l).
Proof.
  induction l as [|x l IH]; simpl; intros Hl; [constructor|].
  apply Forall_cons in Hl as [Hx Hl].
  apply sort_insert_sorted; [done| |by apply IH].
  by rewrite sort_perm.
Qed.




End SortByKey.

End SortFacts.

(** ** The scorer *)

Module ScorerFacts.
Import JS NumFacts Scorer.



End ScorerFacts.

(** ** The router *)

Module RouterFacts.
Import JS NumFacts SortFacts Router.

(** *** The estimate *)







(** *** The selection *)

Lemma opportunitiesFor_chains signal route :
  map chain (opportunitiesFor signal route)
  = List.filter (qualifies signal route) (route_chains route).
Proof.
  unfold opportunitiesFor, qualifies.
  induction (route_chains route) as [|c l IH]; [done|].
  cbn [omap list_omap List.filter].
  destruct (geb _ _); cbn; by rewrite <- IH.
Qed.



Lemma rankedOpportunities_perm signal route :
  rankedOpportunities signal route ≡ₚ opportunitiesFor signal route.
Proof. apply sort_perm. Qed.


Lemma routeSignal_unfold w signal now r st route :
  signalRoutes !! sig_type signal = Some route ->
  routeSignal w signal now r st
  = match rankedOpportunities signal route with
    | [] => (Returned None, st)
    | best :: _ =>
        match executeStrategy w best r with
        | Returned result =>
            (Returned (Some result),
             trackAttribution signal (Some result) now (noted st best))
        | Thrown e => (Thrown e, noted st best)
        end
    end.
Proof.
  intros Hroute. unfold routeSignal. rewrite Hroute.
  by destruct (rankedOpportunities signal route).
Qed.



(** *** Signals without a route *)



(** *** Dispatch *)

(** Every chain of a configured route is a configured chain. *)
Lemma route_chains_configured (w : World) (name : string) (route : Route)
    (chainName : string) :
  signalRoutes !! name = Some route ->
  chainName ∈ route_chains route ->
  is_Some (chains w !! chainName).
Proof.
  intros Hroute Hin. apply elem_of_list_to_map_2 in Hroute.
  unfold route_table in Hroute.
  repeat (apply elem_of_cons in Hroute as [Hroute|Hroute];
          [ inversion Hroute; subst; cbn [route_chains] in Hin;
            repeat (apply elem_of_cons in Hin as [->|Hin]; [by eexists|]);
            by apply elem_of_nil in Hin |]).
  by apply elem_of_nil in Hroute.
Qed.

Lemma executeStrategy_returns_on_routes w signal route opportunity r :
  signalRoutes !! sig_type signal = Some route ->
  opportunity ∈ rankedOpportunities signal route ->
  ∃ result, executeStrategy w opportunity r = Returned result.
Proof.
  intros Hroute Hin.
  assert (chain opportunity ∈ route_chains route) as Hchain.
  { rewrite rankedOpportunities_perm in Hin.
    assert (chain opportunity ∈ map chain (opportunitiesFor signal route))
      as Hc by (by apply list_elem_of_fmap_2).
    rewrite opportunitiesFor_chains in Hc.
    apply list_elem_of_In, filter_In in Hc as [Hc _].
    by apply list_elem_of_In. }
  destruct (route_chains_configured w _ _ _ Hroute Hchain) as [config Hconfig].
  unfold executeStrategy. rewrite Hconfig.
  destruct (dispatch _ _ _ _); by eexists.
Qed.

(** Routing never throws: the promise of [routeSignal] always resolves. *)
Lemma routeSignal_returns w signal now r st :
  ∃ result st', routeSignal w signal now r st = (Returned result, st').
Proof.
  destruct (signalRoutes !! sig_type signal) as [route|] eqn:Hroute.
  - rewrite (routeSignal_unfold _ _ _ _ _ _ Hroute).
    destruct (rankedOpportunities signal route) as [|best rest] eqn:E;
      [by eexists _, _|].
    destruct (executeStrategy_returns_on_routes w signal route best r Hroute)
      as [result ->]; [rewrite E; by left|].
    by eexists _, _.
  - unfold routeSignal. rewrite Hroute. by eexists _, _.
Qed.



(** *** Attribution of outcomes *)

(** C8, as stated, fails: routing the sample signal when the liquidation
    call throws yields the failed result of the [catch] clause, and
    afterwards the attribution map holds no record for the signal;
    [trackAttribution] called on that failed result stores nothing
    either.  So it is not the case that every failed execution is
    recorded. *)
Lemma failed_execution_not_recorded :
  let failed := failure {| message := "execution reverted" |} in
  routeSignal brokenWorld testSignal #1700000000000 noDraws freshRouter
    = (Returned (Some failed), noted freshRouter breachOnEthereum) ∧
  success failed = false ∧
  ¬ recorded testSignal (noted freshRouter breachOnEthereum) ∧
  ¬ recorded testSignal
      (trackAttribution testSignal (Some failed) #1700000000000 freshRouter) ∧
  ¬ failures_recorded.
Proof.
  intros failed.
  assert (routeSignal brokenWorld testSignal #1700000000000 noDraws freshRouter
          = (Returned (Some failed), noted freshRouter breachOnEthereum))
    as Hrun by (vm_compute; reflexivity).
  assert (¬ recorded testSignal (noted freshRouter breachOnEthereum)) as Hnot.
  { intros (key & attribution & Hlookup & _).
    cbn [noted attributionMap freshRouter] in Hlookup.
    by rewrite lookup_empty in Hlookup. }
  split; [exact Hrun|]. split; [reflexivity|]. split; [exact Hnot|].
  split.
  - intros (key & attribution & Hlookup & _).
    cbn [trackAttribution failed failure success negb attributionMap
         freshRouter] in Hlookup.
    by rewrite lookup_empty in Hlookup.
  - intros Hclaim. apply Hnot.
    by apply (Hclaim brokenWorld testSignal #1700000000000 noDraws
                freshRouter _ failed Hrun).
Qed.

(** C8, amended.  When [routeSignal] returns a result with [success =
    false], the attribution map, the per-type profits and the emitted
    events are exactly as before the call; when it returns a result with
    [success = true], the attribution is stored under the result's
    [txHash] and the result's profit is added to the profit of the
    signal's type. *)
Theorem trackAttribution_records_successes_only
    (w : World) (signal : Signal) (now : num) (r : Draws) (st st' : State)
    (result : ExecResult) :
  routeSignal w signal now r st = (Returned (Some result), st') ->
  (success result = false ->
     attributionMap st' = attributionMap st ∧
     profitsBySignal st' = profitsBySignal st ∧
     emitted st' = emitted st) ∧
  (success result = true ->
     attributionMap st' !! txHash result
       = Some {| att_signalId := or_str (sig_txHash signal) (sig_id signal);
                 att_signalType := sig_type signal;
                 att_timestamp := now;
                 att_profit := profit result;
                 att_txHash := txHash result;
                 att_gasUsed := gasUsed result |} ∧
     profitsBySignal st' !! sig_type signal
       = Some (add (or_num (profitsBySignal st !! sig_type signal) #0)
                   (profit result))).
Proof.
  unfold routeSignal.
  destruct (signalRoutes !! sig_type signal) as [route|]; [|done].
  destruct (rankedOpportunities signal route) as [|best rest]; [done|].
  destruct (executeStrategy w best r) as [result'|e]; [|done].
  intros [= -> <-]. unfold trackAttribution.
  split; intros ->; cbn.
  - done.
  - by rewrite !lookup_insert_eq.
Qed.

Lemma trackAttribution_records_successes_only_witness :
  let st' := noted freshRouter breachOnEthereum in
  attributionMap st' = ∅ ∧ profitsBySignal st' = ∅ ∧ emitted st' = [].
Proof.
  refine (proj1 (trackAttribution_records_successes_only brokenWorld
                   testSignal #1700000000000 noDraws freshRouter
                   (noted freshRouter breachOnEthereum)
                   (failure {| message := "execution reverted" |}) _) _);
    vm_compute; reflexivity.
Defined.

End RouterFacts.

(** ** JSON documents *)

Module JsonFacts.
Import JS.

(** Induction on values through the lists they contain. *)
Section ValueInduction.
Variable P : value -> Prop.
Hypothesis Hundefined : P VUndefined.
Hypothesis Hnull : P VNull.
Hypothesis Hbool : ∀ b, P (VBool b).
Hypothesis Hnum : ∀ n, P (VNum n).
Hypothesis Hstr : ∀ s, P (VStr s).
Hypothesis Harr : ∀ items, Forall P items -> P (VArr items).
Hypothesis Hobj :
  ∀ props, Forall (fun p => P (snd p)) props -> P (VObj props).

Fixpoint value_nested_ind (v : value) : P v :=
  match v with
  | VUndefined => Hundefined
  | VNull => Hnull
  | VBool b => Hbool b
  | VNum n => Hnum n
  | VStr s => Hstr s
  | VArr items =>
      Harr items
        ((fix all (l : list value) : Forall P l :=
            match l with
            | [] => List.Forall_nil P
            | x :: l' =>
                @List.Forall_cons _ P x l' (value_nested_ind x) (all l')
            end) items)
  | VObj props =>
      Hobj props
        ((fix all (l : list (string * value))
            : Forall (fun p => P (snd p)) l :=
            match l with
            | [] => List.Forall_nil _
            | p :: l' =>
                @List.Forall_cons _ (fun p => P (snd p)) p l'
                  (value_nested_ind (snd p)) (all l')
            end) props)
  end.
End ValueInduction.

Lemma stringify_arr (items : list value) :
  stringify (VArr items)
  = Some (JArray (map (fun x => default JNull (stringify x)) items)).
Proof. reflexivity. Qed.

Lemma stringify_obj (props : list (string * value)) :
  stringify (VObj props) = Some (JObject (written_members props)).
Proof.
  cbn [stringify]. do 2 f_equal.
  induction props as [|[k x] rest IH]; [done|].
  cbn [written_members omap list_omap fst snd].
  destruct (stringify x); cbn; by rewrite IH.
Qed.

(** A storable value is written, and read back as itself. *)
Lemma stringify_parse (v : value) :
  storable v = true -> ∃ j, stringify v = Some j ∧ parse j = v.
Proof.
  induction v as [| |b|n|s|items IH|props IH] using value_nested_ind;
    cbn [storable]; intros Hs; try done; try (by eexists).
  - destruct n; try done. by eexists.
  - rewrite stringify_arr. eexists. split; [reflexivity|].
    cbn [parse]. f_equal.
    induction IH as [|x l Hx Hl IHl]; [done|].
    cbn [forallb] in Hs. apply andb_true_iff in Hs as [Hsx Hsl].
    destruct (Hx Hsx) as (j & Hj & Hp). cbn [map]. rewrite Hj.
    change (default JNull (Some j)) with j. rewrite Hp. f_equal.
    by apply IHl.
  - rewrite stringify_obj. eexists. split; [reflexivity|].
    cbn [parse]. f_equal.
    induction IH as [|[k x] l Hx Hl IHl]; [done|].
    cbn [forallb snd] in Hs. apply andb_true_iff in Hs as [Hsx Hsl].
    cbn [snd] in Hx. destruct (Hx Hsx) as (j & Hj & Hp).
    cbn [written_members omap list_omap fst snd]. rewrite Hj.
    cbn [fmap option_fmap option_map map fst snd]. rewrite Hp. f_equal.
    by apply IHl.
Qed.

End JsonFacts.

(** ** The attribution ledger *)

Module LedgerFacts.
Import JS NumFacts JsonFacts Attribution.

(** *** One call *)

Lemma recordEvent_status signalId eventData now l chain :
  chains l !! signalId = Some chain ->
  statusOf signalId (recordEvent signalId eventData now l)
  = Some (if String.eqb (ed_type eventData) "BOT_RESPONSE" then TRIGGERED
          else if String.eqb (ed_type eventData) "LIQUIDATION_EXECUTED"
               then PROFITABLE
               else status chain).
Proof.
  intros Hc. unfold statusOf, recordEvent. rewrite Hc. cbn.
  by rewrite lookup_insert_eq.
Qed.

Lemma recordEvent_other signalId other eventData now l :
  other ≠ signalId ->
  chains (recordEvent signalId eventData now l) !! other = chains l !! other.
Proof.
  intros Hne. unfold recordEvent.
  destruct (chains l !! signalId); [|done]. cbn.
  by rewrite lookup_insert_ne.
Qed.

(** The ledger [recordProfit] leaves, whether or not the write succeeds. *)
Lemma recordProfit_ledger signalId profitData now l d chain :
  chains l !! signalId = Some chain ->
  (recordProfit signalId profitData now l d).1.2
  = {| chains :=
         <[signalId :=
             {| origin := origin chain;
                jam := jam chain;
                events := events chain;
                profit := add (profit chain) (netProfit profitData);
                status := COMPLETED;
                semanticROI :=
                  Some (mul (div (netProfit profitData)
                                 (o_weight (origin chain))) #100) |}]>
           (chains l);
       profits :=
         <[pd_txHash profitData :=
             {| p_signalId := signalId;
                p_txHash := pd_txHash profitData;
                p_amountETH := pd_amountETH profitData;
                p_gasSpent := or_num (pd_gasSpent profitData) #0;
                p_netProfit := netProfit profitData;
                p_timestamp := now;
                p_liquidationType :=
                  default "UNKNOWN" (or_str (pd_type profitData) None) |}]>
           (profits l) |}.
Proof.
  intros Hc. unfold recordProfit. rewrite Hc.
  unfold saveToDatabase. by destruct (rejects d).
Qed.

Lemma recordProfit_missing signalId profitData now l d :
  chains l !! signalId = None ->
  recordProfit signalId profitData now l d = (Returned None, l, d).
Proof. intros Hc. unfold recordProfit. by rewrite Hc. Qed.

Lemma recordProfit_status signalId profitData now l d chain :
  chains l !! signalId = Some chain ->
  statusOf signalId (recordProfit signalId profitData now l d).1.2
  = Some COMPLETED.
Proof.
  intros Hc. unfold statusOf. rewrite (recordProfit_ledger _ _ _ _ _ _ Hc).
  cbn. by rewrite lookup_insert_eq.
Qed.

Lemma recordProfit_other signalId other profitData now l d :
  other ≠ signalId ->
  chains (recordProfit signalId profitData now l d).1.2 !! other
  = chains l !! other.
Proof.
  intros Hne. destruct (chains l !! signalId) as [chain|] eqn:Hc.
  - rewrite (recordProfit_ledger _ _ _ _ _ _ Hc). cbn.
    by rewrite lookup_insert_ne.
  - by rewrite recordProfit_missing.
Qed.

(** *** Sequences of calls *)

Lemma step_status (s : Ledger * Disk) (c : Call) (signalId : string)
    (st : Status) :
  statusOf signalId (fst s) = Some st ->
  ∃ st', statusOf signalId (fst (step s c)) = Some st' ∧
         (st ≠ BROADCASTED -> st' ≠ BROADCASTED).
Proof.
  intros Hst. unfold statusOf in Hst.
  destruct (chains (fst s) !! signalId) as [chain|] eqn:Hc; [|done].
  injection Hst as <-.
  destruct c as [target eventData now | target profitData now]; cbn.
  - destruct (decide (target = signalId)) as [->|Hne].
    + rewrite (recordEvent_status _ _ _ _ _ Hc). eexists. split; [done|].
      by repeat case_match.
    + unfold statusOf. rewrite recordEvent_other by done. rewrite Hc.
      by eexists.
  - destruct (recordProfit target profitData now s.1 s.2) as [[o l] d] eqn:E.
    assert (l = (recordProfit target profitData now s.1 s.2).1.2) as ->
      by (by rewrite E).
    cbn. destruct (decide (target = signalId)) as [->|Hne].
    + rewrite (recordProfit_status _ _ _ _ _ _ Hc). by eexists.
    + unfold statusOf. rewrite recordProfit_other by done. rewrite Hc.
      by eexists.
Qed.

Lemma run_status (calls : list Call) (s : Ledger * Disk) (signalId : string)
    (st : Status) :
  statusOf signalId (fst s) = Some st ->
  ∃ st', statusOf signalId (fst (run calls s)) = Some st' ∧
         (st ≠ BROADCASTED -> st' ≠ BROADCASTED).
Proof.
  revert s st. induction calls as [|c calls IH]; intros s st Hst; cbn.
  - by eexists.
  - destruct (step_status s c signalId st Hst) as (st1 & H1 & Hkeep1).
    destruct (IH _ _ H1) as (st2 & H2 & Hkeep2).
    exists st2. split; [done|]. auto.
Qed.

(** C3, as stated, fails: a chain taken to COMPLETED by a bot response, a
    liquidation and a recorded profit goes back to TRIGGERED when a
    further bot response is recorded.  So it is not the case that the
    status only advances. *)
Lemma completed_chain_regresses :
  statusOf sigId (fst settledChain) = Some COMPLETED ∧
  statusOf sigId
    (fst (run [CallRecordEvent sigId botResponse #1700000000400] settledChain))
    = Some TRIGGERED ∧
  ¬ advances COMPLETED TRIGGERED ∧
  ¬ status_only_advances.
Proof.
  assert (statusOf sigId (fst settledChain) = Some COMPLETED) as Hbefore
    by (vm_compute; reflexivity).
  assert (statusOf sigId
            (fst (run [CallRecordEvent sigId botResponse #1700000000400]
                    settledChain))
          = Some TRIGGERED) as Hafter by (vm_compute; reflexivity).
  assert (¬ advances COMPLETED TRIGGERED) as Hnot
    by (unfold advances; cbn; lia).
  split; [exact Hbefore|]. split; [exact Hafter|]. split; [exact Hnot|].
  intros Hclaim. exact (Hnot (Hclaim _ _ _ _ _ Hbefore Hafter)).
Qed.

(** C3, amended.  For a chain of the ledger: [recordEvent] sets its
    status to TRIGGERED on a "BOT_RESPONSE" event and to PROFITABLE on a
    "LIQUIDATION_EXECUTED" event, whatever the status was, and leaves it
    unchanged on any other event; [recordProfit] sets it to COMPLETED;
    and through every sequence of [recordEvent] and [recordProfit] calls
    the chain stays in the ledger and, once its status is not BROADCASTED,
    it never is BROADCASTED again. *)
Theorem status_follows_last_call
    (s : Ledger * Disk) (signalId : string) (st : Status) :
  statusOf signalId (fst s) = Some st ->
  (∀ eventData now,
     statusOf signalId (recordEvent signalId eventData now (fst s))
     = Some (if String.eqb (ed_type eventData) "BOT_RESPONSE" then TRIGGERED
             else if String.eqb (ed_type eventData) "LIQUIDATION_EXECUTED"
                  then PROFITABLE
                  else st)) ∧
  (∀ profitData now,
     statusOf signalId
       (recordProfit signalId profitData now (fst s) (snd s)).1.2
     = Some COMPLETED) ∧
  (∀ calls, ∃ st',
     statusOf signalId (fst (run calls s)) = Some st' ∧
     (st ≠ BROADCASTED -> st' ≠ BROADCASTED)).
Proof.
  intros Hst. pose proof Hst as Hst'. unfold statusOf in Hst'.
  destruct (chains (fst s) !! signalId) as [chain|] eqn:Hc; [|done].
  injection Hst' as <-.
  split; [intros; by apply recordEvent_status|].
  split; [intros; by eapply recordProfit_status|].
  intros calls. by apply run_status.
Qed.

Lemma status_follows_last_call_witness :
  ∃ st',
    statusOf sigId
      (fst (run [CallRecordEvent sigId botResponse #1700000000400]
              settledChain))
    = Some st' ∧
    (COMPLETED ≠ BROADCASTED -> st' ≠ BROADCASTED).
Proof.
  apply (status_follows_last_call settledChain sigId COMPLETED eq_refl).
Defined.

(** *** Profit recorded twice *)

(** C4, as stated, fails: recording the same profit of 1 ETH twice under
    the same [txHash] takes the chain's cumulative profit to 1 and then to
    2.  So it is not the case that a profit is counted once. *)
Lemma same_txHash_counted_twice :
  profitOf sigId (fst recordedTwice) = Some #1 ∧
  profitOf sigId (snd recordedTwice) = Some #2 ∧
  ¬ profit_counted_once.
Proof.
  assert (profitOf sigId (fst recordedTwice) = Some #1) as H1
    by (vm_compute; reflexivity).
  assert (profitOf sigId (snd recordedTwice) = Some #2) as H2
    by (vm_compute; reflexivity).
  split; [exact H1|]. split; [exact H2|].
  intros Hclaim.
  pose proof (Hclaim sigId oneEther #1700000000300 #1700000000400
                taggedLedger emptyDisk) as H.
  cbv zeta in H.
  assert ((recordProfit sigId oneEther #1700000000400
             (recordProfit sigId oneEther #1700000000300 taggedLedger
                emptyDisk).1.2
             (recordProfit sigId oneEther #1700000000300 taggedLedger
                emptyDisk).2).1.2
          = snd recordedTwice) as E2 by (vm_compute; reflexivity).
  assert ((recordProfit sigId oneEther #1700000000300 taggedLedger
             emptyDisk).1.2
          = fst recordedTwice) as E1 by (vm_compute; reflexivity).
  rewrite E2, E1, H1, H2 in H. vm_compute in H. discriminate H.
Qed.

(** C4, amended.  Recording profit twice with the same [txHash] for a
    chain keeps one entry for that [txHash] in the [profits] map (the
    second record replaces the first, and no key is added), while the
    chain's cumulative profit grows by the net profit of each call: after
    the second call it is the total after the first plus the second net
    profit. *)
Theorem recordProfit_same_txHash
    (signalId : string) (first second : ProfitData) (now1 now2 : num)
    (l : Ledger) (d : Disk) (chain : Chain) :
  chains l !! signalId = Some chain ->
  pd_txHash first = pd_txHash second ->
  let s1 := recordProfit signalId first now1 l d in
  let s2 := recordProfit signalId second now2 s1.1.2 s1.2 in
  profitOf signalId s1.1.2 = Some (add (profit chain) (netProfit first)) ∧
  profitOf signalId s2.1.2
    = Some (add (add (profit chain) (netProfit first)) (netProfit second)) ∧
  dom (profits s2.1.2) = dom (profits s1.1.2) ∧
  p_netProfit <$> profits s2.1.2 !! pd_txHash first
    = Some (netProfit second).
Proof.
  intros Hc Hsame s1 s2. unfold s2, s1, profitOf.
  rewrite (recordProfit_ledger _ first _ _ _ _ Hc). cbn [chains profits].
  erewrite (recordProfit_ledger _ second); [|apply lookup_insert_eq].
  cbn [chains profits profit]. rewrite !lookup_insert_eq.
  split; [done|]. split; [done|].
  rewrite Hsame, lookup_insert_eq. split; [|done].
  by rewrite insert_insert_eq, !dom_insert_L.
Qed.

Lemma recordProfit_same_txHash_witness :
  profitOf sigId (fst recordedTwice) = Some (add #0 (netProfit oneEther)) ∧
  profitOf sigId (snd recordedTwice)
    = Some (add (add #0 (netProfit oneEther)) (netProfit oneEther)).
Proof.
  destruct (recordProfit_same_txHash sigId oneEther oneEther
              #1700000000300 #1700000000400 taggedLedger emptyDisk
              {| origin := feeChange;
                 jam := fst (tagJAM alertJam feeChange sigId #1700000000000
                               emptyLedger);
                 events := []; profit := #0; status := BROADCASTED;
                 semanticROI := None |}
              eq_refl eq_refl) as (H1 & H2 & _).
  split; [exact H1 | exact H2].
Defined.

(** *** Unknown chains *)

(** C10.  For a [signalId] with no chain in the ledger, [recordProfit]
    resolves to [undefined] and changes nothing: the chains and the
    profits map are as before, and the disk is as before (no write is
    made). *)
Theorem recordProfit_unknown_chain
    (signalId : string) (profitData : ProfitData) (now : num)
    (l : Ledger) (d : Disk) :
  chains l !! signalId = None ->
  recordProfit signalId profitData now l d = (Returned None, l, d).
Proof. apply recordProfit_missing. Qed.

Lemma recordProfit_unknown_chain_witness :
  recordProfit "SIG-ffffffff-00000000" oneEther #1700000000300
    taggedLedger emptyDisk
  = (Returned None, taggedLedger, emptyDisk).
Proof. apply recordProfit_unknown_chain. reflexivity. Defined.

(** *** Persistence *)

Lemma mapOfEntries_to_list {A} (m : gmap string A) :
  mapOfEntries (map_to_list m) = m.
Proof.
  unfold mapOfEntries. rewrite <- (list_to_map_to_list m) at 2.
  apply list_to_map_proper; [|apply reverse_Permutation].
  rewrite reverse_Permutation. apply NoDup_fst_map_to_list.
Qed.

Lemma mapM_entryOf (entries : list (string * value)) :
  mapM entryOf (map entry_value entries) = Some entries.
Proof.
  induction entries as [|[k v] rest IH]; [done|].
  cbn [map mapM entry_value fst snd entryOf]. rewrite IH. done.
Qed.

Lemma entries_storable (m : gmap string value) :
  storable_map m -> storable (entries_value m) = true.
Proof.
  intros Hm. apply map_Forall_to_list in Hm.
  unfold entries_value. cbn [storable].
  induction Hm as [|[k v] rest Hv Hrest IH]; [done|].
  cbn [map forallb storable fst snd]. cbn in Hv. by rewrite Hv, IH.
Qed.

Lemma newMap_entries (m : gmap string value) :
  newMap (entries_value m) = Some m.
Proof.
  unfold entries_value. cbn [newMap].
  change (fun e : string * value => VArr [VStr (fst e); snd e])
    with entry_value.
  rewrite mapM_entryOf. cbn. by rewrite mapOfEntries_to_list.
Qed.

(** C6, as stated, fails: after a profit is recorded on a chain whose
    source has weight 0, the chain's [semanticROI] is [Infinity]; the file
    written by that call (the same document a save of the ledger writes)
    holds [null] in its place, and reloading it gives maps that differ
    from the ones in memory.  So save followed by load is not the identity
    on every ledger. *)
Lemma infinite_roi_not_reloaded :
  let memory := ledger_maps spamSettled.1.2 in
  let reloaded :=
    loadFromDatabase (snd (saveToDatabase memory #1700000000300 emptyDisk))
      memory in
  spamSettled.2 = snd (saveToDatabase memory #1700000000300 emptyDisk) ∧
  readROI memory = Some (VNum PInf) ∧
  readROI reloaded = Some VNull ∧
  reloaded ≠ memory ∧
  ¬ reload_is_identity.
Proof.
  intros memory reloaded.
  assert (readROI memory = Some (VNum PInf)) as Hm by (vm_compute; reflexivity).
  assert (readROI reloaded = Some VNull) as Hr by (vm_compute; reflexivity).
  assert (reloaded ≠ memory) as Hne.
  { intros Heq. rewrite Heq in Hr. congruence. }
  split; [vm_compute; reflexivity|].
  split; [done|]. split; [done|]. split; [done|].
  intros Hclaim. apply Hne.
  exact (Hclaim spamSettled.1.2 #1700000000300 emptyDisk eq_refl).
Qed.

(** C6, amended.  When the write is accepted and every value held by the
    [chains] and [profits] maps is storable (finite numbers only, and no
    [undefined] property or array item, at any depth), [saveToDatabase]
    followed by [loadFromDatabase] rebuilds exactly the saved maps,
    whatever the maps were before the load. *)
Theorem load_after_save
    (m previous : Maps) (now : num) (d : Disk) :
  rejects d = false ->
  storable_map (m_chains m) ->
  storable_map (m_profits m) ->
  fst (saveToDatabase m now d) = Returned tt ∧
  loadFromDatabase (snd (saveToDatabase m now d)) previous = m.
Proof.
  intros Hwrite Hchains Hprofits.
  unfold saveToDatabase. rewrite Hwrite. split; [done|].
  destruct (stringify_parse _ (entries_storable _ Hchains))
    as (jc & Hjc & Hpc).
  destruct (stringify_parse _ (entries_storable _ Hprofits))
    as (jp & Hjp & Hpp).
  unfold loadFromDatabase. cbn [snd file].
  rewrite stringify_obj.
  cbn [written_members omap list_omap fst snd]. rewrite Hjc, Hjp.
  destruct (stringify (VNum now)) as [jt|] eqn:Hjt;
    [|by destruct now as [?| | |]].
  cbn [fmap option_fmap option_map parse map fst snd read_prop].
  rewrite Hpc, Hpp.
  change (get_prop "chains" _) with (entries_value (m_chains m)).
  change (get_prop "profits" _) with (entries_value (m_profits m)).
  cbn [mbind option_bind]. rewrite !newMap_entries. by destruct m.
Qed.

Lemma load_after_save_witness :
  let memory := ledger_maps (fst settledChain) in
  loadFromDatabase (snd (saveToDatabase memory #1700000000500 emptyDisk))
    {| m_chains := ∅; m_profits := ∅ |}
  = memory.
Proof.
  intros memory.
  apply (load_after_save memory _ #1700000000500 emptyDisk eq_refl).
  - apply map_Forall_to_list. vm_compute. repeat constructor.
  - apply map_Forall_to_list. vm_compute. repeat constructor.
Defined.

End LedgerFacts.

(** ** More on numbers *)

Module NumMore.
Import JS NumFacts Count.


Lemma ltb_Fin (a b : Q) : ltb (Fin a) (Fin b) = true <-> (a < b)%Q.
Proof. cbn. rewrite negb_true_iff. apply Qle_bool_false. Qed.

Lemma Qeq_bool_false (a b : Q) : ¬ (a == b)%Q -> Qeq_bool a b = false.
Proof.
  intros Hne. destruct (Qeq_bool a b) eqn:E; [|done].
  by apply Qeq_bool_iff in E.
Qed.

Lemma div_Fin (a b : Q) :
  ¬ (b == 0)%Q -> div (Fin a) (Fin b) = Fin (Qred (a / b)).
Proof. intros Hb. cbn. by rewrite Qeq_bool_false. Qed.

(** Sums of integers stay integers, in lowest terms. *)
Lemma Qred_inject_Z_plus (a b : Z) :
  Qred (inject_Z a + inject_Z b) = inject_Z (a + b).
Proof.
  rewrite <- (inject_Z_Qred (a + b)). apply Qred_complete.
  by rewrite inject_Z_plus.
Qed.

Lemma of_nat_succ (n : nat) : add (of_nat n) #1 = of_nat (S n).
Proof.
  unfold of_nat. change #1 with (Fin (inject_Z 1)). cbn [add].
  rewrite Qred_inject_Z_plus. do 2 f_equal. lia.
Qed.

Lemma of_nat_inj (n m : nat) : of_nat n = of_nat m -> n = m.
Proof. unfold of_nat, inject_Z. intros [= H]. lia. Qed.

Lemma within_between lo hi x : within lo hi x -> between lo hi x.
Proof.
  intros (q & -> & Hlo & Hhi). exists q. split; [done|].
  split; [done|]. by apply Qlt_le_weak.
Qed.

End NumMore.

(** ** The router: what the code also guarantees *)

Module RouterMore.
Import JS NumFacts NumMore SortFacts Router RouterFacts Count RouterTerms.

(** *** Routing always resolves *)


(** *** Chains without configuration *)




(** X3.  For a venue that has no chain modifier,
    [calculateExpectedProfit] is NaN whatever the signal and the route
    are; the venue fails the comparison with [route.minProfit] and is not
    among the opportunities [routeSignal] builds. *)
Theorem unconfigured_venue_skipped
    (signal : Signal) (route : Route) (chainName : string) :
  chainModifiers !! chainName = None ->
  calculateExpectedProfit signal chainName route = NaN ∧
  qualifies signal route chainName = false ∧
  chainName ∉ map chain (opportunitiesFor signal route).
Proof.
  intros Hnone.
  assert (calculateExpectedProfit signal chainName route = NaN) as Hnan.
  { unfold calculateExpectedProfit. rewrite Hnone. cbn [toNumber].
    destruct (div (weight signal) #10);
      by destruct (maxStrategyProfit _), (add _ _). }
  assert (qualifies signal route chainName = false) as Hq.
  { unfold qualifies. rewrite Hnan. unfold geb. by destruct (minProfit route). }
  split; [done|]. split; [done|].
  rewrite opportunitiesFor_chains. intros Hin.
  apply list_elem_of_In, filter_In in Hin as [_ Hin]. congruence.
Qed.

Lemma unconfigured_venue_skipped_witness :
  calculateExpectedProfit testSignal "solana" solanaRoute = NaN ∧
  qualifies testSignal solanaRoute "solana" = false ∧
  "solana" ∉ map chain (opportunitiesFor testSignal solanaRoute).
Proof. apply unconfigured_venue_skipped. reflexivity. Defined.

(** *** The estimate grows with the weight *)









(** *** Signals of weight zero *)






(** *** The simulated execution *)

Lemma dispatch_default (w : World) (opportunity : Opportunity)
    (provider : Provider) (r : Draws) :
  head (strategies opportunity) ∉ namedStrategies ->
  dispatch w opportunity provider r = Returned (simulate w opportunity r).
Proof.
  intros Hnot. unfold dispatch.
  repeat (destruct (decide _) as [E|_];
          [ exfalso; apply Hnot; rewrite E; unfold namedStrategies;
            repeat (first [ by apply list_elem_of_here
                          | apply list_elem_of_further ]) |]).
  done.
Qed.

Lemma simulated_profit_bounds (e d : Q) :
  (0 <= e)%Q -> (0 <= d)%Q -> (d < 1)%Q ->
  between (0.8 * e) (1.2 * e)
          (mul (Fin e) (add #0.8 (mul (Fin d) #0.4))).
Proof.
  intros He Hd0 Hd1.
  change #0.8 with (Fin (Qmake 4 5)). change #0.4 with (Fin (Qmake 2 5)).
  cbn [mul add]. eexists. split; [reflexivity|].
  rewrite !Qred_correct.
  assert (0 <= e * d)%Q as H0 by (by apply Qmult_le_0_compat).
  assert (e * d <= e * 1)%Q as H1.
  { rewrite (Qmult_comm e d), (Qmult_comm e 1).
    apply Qmult_le_compat_r; [by apply Qlt_le_weak|done]. }
  assert (e * (Qmake 4 5 + d * Qmake 2 5)
          == Qmake 4 5 * e + Qmake 2 5 * (e * d))%Q as -> by ring.
  split; lra.
Qed.

Lemma simulated_gas_bounds (d : Q) :
  (0 <= d)%Q -> (d < 1)%Q ->
  ∃ g : Z,
    add #200000 (floor (mul (Fin d) #300000)) = Fin (inject_Z g) ∧
    (200000 <= g < 500000)%Z.
Proof.
  intros Hd0 Hd1.
  change #200000 with (Fin (inject_Z 200000)).
  change #300000 with (Fin (inject_Z 300000)).
  cbn [mul floor add]. rewrite Qred_inject_Z_plus.
  set (z := Qfloor (Qred (d * inject_Z 300000))).
  assert (0 <= z < 300000)%Z as Hz.
  { unfold z. split.
    - change 0%Z with (Qfloor 0). apply Qfloor_resp_le.
      rewrite Qred_correct. apply Qmult_le_0_compat; done.
    - rewrite Zlt_Qlt.
      eapply Qle_lt_trans; [apply Qfloor_le|].
      rewrite Qred_correct.
      assert (inject_Z 300000 == 1 * inject_Z 300000)%Q as E by ring.
      rewrite E at 2. by apply Qmult_lt_compat_r. }
  exists (200000 + z)%Z. split; [done|lia].
Qed.

(** X6.  For an opportunity on a configured chain whose first strategy
    is none of the four with a method of their own, [executeStrategy]
    returns the simulated result: it succeeds without an error, its profit
    lies between 0.8 and 1.2 times the (finite, non-negative) expected
    profit, its hash is "0x" followed by the digits of the second draw,
    and its gas is a whole number from 200000 up to, not including,
    500000. *)
Theorem executeStrategy_simulated
    (w : World) (opportunity : Opportunity) (r : Draws)
    (config : ChainConfig) (e : Q) :
  chains w !! chain opportunity = Some config ->
  head (strategies opportunity) ∉ namedStrategies ->
  expectedProfit opportunity = Fin e -> (0 <= e)%Q ->
  unitDraws r ->
  ∃ result,
    executeStrategy w opportunity r = Returned result ∧
    success result = true ∧
    error result = None ∧
    between (0.8 * e) (1.2 * e) (profit result) ∧
    txHash result = Some ("0x" ++ hexDigits w (draw_hash r)) ∧
    ∃ g : Z,
      gasUsed result = Some (Fin (inject_Z g)) ∧ (200000 <= g < 500000)%Z.
Proof.
  intros Hconfig Hnot He He0 ((dp & Hdp & Hdp0 & Hdp1) & _ &
                               (dg & Hdg & Hdg0 & Hdg1)).
  unfold executeStrategy. rewrite Hconfig, dispatch_default by done.
  eexists. split; [reflexivity|]. unfold simulate.
  cbn [success error profit txHash gasUsed].
  split; [done|]. split; [done|].
  rewrite He, Hdp, Hdg.
  split; [by apply simulated_profit_bounds|].
  split; [done|].
  destruct (simulated_gas_bounds dg Hdg0 Hdg1) as (g & -> & Hg).
  by exists g.
Qed.

Lemma executeStrategy_simulated_witness :
  ∃ result,
    executeStrategy calmWorld yieldOnPolygon noDraws = Returned result ∧
    success result = true ∧
    error result = None ∧
    between (0.8 * Qmake 41 625) (1.2 * Qmake 41 625) (profit result) ∧
    txHash result = Some ("0x" ++ hexDigits calmWorld (draw_hash noDraws)) ∧
    ∃ g : Z,
      gasUsed result = Some (Fin (inject_Z g)) ∧ (200000 <= g < 500000)%Z.
Proof.
  apply (executeStrategy_simulated calmWorld yieldOnPolygon noDraws
           {| rpc := "https://polygon-rpc.com"; chainId := 137;
              blockTime := #2;
              mevStrategies := ["microLiquidation"; "yieldFarm"] |}
           (Qmake 41 625)).
  - reflexivity.
  - cbn. unfold namedStrategies. intros H.
    repeat (apply elem_of_cons in H as [H|H]; [discriminate H|]).
    by apply elem_of_nil in H.
  - reflexivity.
  - discriminate.
  - unfold unitDraws, noDraws. cbn.
    repeat split; (exists (Qmake 1 2));
      (split; [reflexivity|split; [discriminate|reflexivity]]).
Defined.

End RouterMore.

(** ** The first elements of a ranking *)

Module TopFacts.
Import JS NumFacts SortFacts.

Section Top.
Context {A : Type} (key : A -> num) (n : nat) (l : list A).
Hypothesis numeric : Forall (fun x => is_nan (key x) = false) l.

Lemma top_length :
  length (take n (sort (fun a b => sub (key b) (key a)) l))
  = min n (length l).
Proof.
  rewrite length_take. f_equal. apply Permutation_length, sort_perm.
Qed.

Lemma top_subset x :
  x ∈ take n (sort (fun a b => sub (key b) (key a)) l) -> x ∈ l.
Proof.
  intros Hx. apply subseteq_take in Hx.
  by rewrite (sort_perm key l) in Hx.
Qed.

Lemma top_sorted :
  StronglySorted (fun a b => leb (key b) (key a) = true)
    (take n (sort (fun a b => sub (key b) (key a)) l)).
Proof.
  pose proof (sort_sorted key l numeric) as Hs.
  rewrite <- (take_drop n (sort _ l)) in Hs.
  by apply StronglySorted_app_1_l in Hs.
Qed.

Lemma top_dominates x y :
  x ∈ take n (sort (fun a b => sub (key b) (key a)) l) ->
  y ∈ l ->
  y ∉ take n (sort (fun a b => sub (key b) (key a)) l) ->
  leb (key y) (key x) = true.
Proof.
  intros Hx Hy Hnot.
  pose proof (sort_sorted key l numeric) as Hs.
  rewrite <- (take_drop n (sort _ l)) in Hs.
  rewrite <- (sort_perm key l), <- (take_drop n (sort _ l)) in Hy.
  apply elem_of_app in Hy as [Hy|Hy]; [done|].
  by apply (StronglySorted_app_1_elem_of _ _ _ _ _ Hs).
Qed.

Lemma top_NoDup {B} (f : A -> B) :
  NoDup (f <$> l) ->
  NoDup (f <$> take n (sort (fun a b => sub (key b) (key a)) l)).
Proof.
  intros Hnd. rewrite fmap_take.
  eapply sublist_NoDup; [|apply sublist_take].
  by rewrite (sort_perm key l).
Qed.

End Top.
End TopFacts.

(** ** The attribution report *)

Module ReportFacts.
Import JS NumFacts NumMore SortFacts TopFacts Router RouterFacts RouterReport.



(** X7.  When no recorded total is NaN, [topSignals] of the attribution
    report has min(5, number of signal types) entries, of distinct types,
    by non-increasing profit; each entry carries the total recorded for
    its type, and every type left out has a total no larger than that of
    any entry. *)
Theorem report_top_signals (toFixed2 : num -> string) (st : State) :
  map_Forall (fun _ p => is_nan p = false) (profitsBySignal st) ->
  let top := topSignals (getAttributionReport toFixed2 st) in
  length top = min 5 (size (profitsBySignal st)) ∧
  NoDup (top_type <$> top) ∧
  StronglySorted (fun a b => leb (top_profit b) (top_profit a) = true) top ∧
  (∀ t, t ∈ top -> profitsBySignal st !! top_type t = Some (top_profit t)) ∧
  (∀ t type p,
     t ∈ top ->
     profitsBySignal st !! type = Some p ->
     type ∉ top_type <$> top ->
     leb p (top_profit t) = true).
Proof.
  intros Hnum top.
  set (entries := map_to_list (profitsBySignal st)).
  assert (Forall (fun e => is_nan (snd e) = false) entries) as Hnumeric.
  { apply map_Forall_to_list in Hnum. eapply Forall_impl; [exact Hnum|].
    by intros [k p]. }
  set (total := foldl (fun total e => add total (snd e)) #0 entries).
  set (render := fun e : string * num =>
         {| top_type := fst e; top_profit := snd e;
            top_percentage := toFixed2 (mul (div (snd e) total) #100) ++ "%" |}).
  assert (top = render <$> take 5 (sort byTotal entries)) as Htop by done.
  rewrite Htop. clear Htop top. unfold byTotal.
  split.
  { rewrite length_fmap, (top_length snd 5 entries).
    unfold entries. by rewrite length_map_to_list. }
  split.
  { rewrite <- list_fmap_compose.
    change (top_type ∘ render) with (fst : string * num -> string).
    apply (top_NoDup snd 5 entries fst), NoDup_fst_map_to_list. }
  split.
  { apply (StronglySorted_fmap render
             (fun a b : string * num => leb (snd b) (snd a) = true)).
    - done.
    - apply (top_sorted snd 5 entries Hnumeric). }
  split.
  { intros t Ht. apply list_elem_of_fmap in Ht as (e & -> & He).
    apply (top_subset snd 5 entries) in He. destruct e as [k p].
    by apply elem_of_map_to_list in He. }
  intros t type p Ht Hp Hnot.
  apply list_elem_of_fmap in Ht as (e & -> & He).
  apply (top_dominates snd 5 entries Hnumeric e (type, p)); [done| |].
  - by apply elem_of_map_to_list.
  - intros Hin. apply Hnot. apply list_elem_of_fmap.
    exists (render (type, p)). split; [done|].
    apply list_elem_of_fmap. by exists (type, p).
Qed.

Lemma report_top_signals_witness :
  let top := topSignals (getAttributionReport plainPercent busyRouter) in
  length top = min 5 (size (profitsBySignal busyRouter)) ∧
  NoDup (top_type <$> top) ∧
  StronglySorted (fun a b => leb (top_profit b) (top_profit a) = true) top ∧
  (∀ t, t ∈ top ->
        profitsBySignal busyRouter !! top_type t = Some (top_profit t)) ∧
  (∀ t type p,
     t ∈ top ->
     profitsBySignal busyRouter !! type = Some p ->
     type ∉ top_type <$> top ->
     leb p (top_profit t) = true).
Proof.
  apply (report_top_signals plainPercent busyRouter).
  apply map_Forall_to_list. vm_compute. repeat constructor.
Defined.



End ReportFacts.

(** ** The strategy methods *)

Module StrategyFacts.
Import JS NumFacts NumMore Router Count Strategies.

(** *** Draws *)

(** [a + Math.random() * b]. *)
Lemma affine_draw (a b : Q) (r : num) :
  within 0 1 r -> (0 <= b)%Q ->
  ∃ q, add (lit a) (mul r (lit b)) = Fin q ∧ (a <= q)%Q ∧ (q <= a + b)%Q.
Proof.
  intros (x & -> & Hx0 & Hx1) Hb. unfold lit. cbn [mul add].
  eexists. split; [reflexivity|]. rewrite !Qred_correct.
  assert (0 <= x * b)%Q by (by apply Qmult_le_0_compat).
  assert (x * b <= 1 * b)%Q.
  { apply Qmult_le_compat_r; [by apply Qlt_le_weak|done]. }
  split; lra.
Qed.

(** [a + Math.floor(Math.random() * b)]. *)
Lemma whole_draw (a b : Z) (r : num) :
  within 0 1 r -> (0 < b)%Z ->
  ∃ z, add (Fin (inject_Z a)) (floor (mul r (Fin (inject_Z b))))
       = Fin (inject_Z (a + z)) ∧ (0 <= z < b)%Z.
Proof.
  intros (x & -> & Hx0 & Hx1) Hb. cbn [mul floor add].
  exists (Qfloor (Qred (x * inject_Z b))).
  rewrite Qred_inject_Z_plus. split; [done|].
  assert (0 < inject_Z b)%Q as Hb'.
  { change 0%Q with (inject_Z 0). by rewrite <- Zlt_Qlt. }
  split.
  - change 0%Z with (Qfloor 0). apply Qfloor_resp_le.
    rewrite Qred_correct. apply Qmult_le_0_compat; [done|].
    by apply Qlt_le_weak.
  - rewrite Zlt_Qlt.
    apply (Qle_lt_trans _ (Qred (x * inject_Z b))); [apply Qfloor_le|].
    rewrite Qred_correct. rewrite <- (Qmult_1_l (inject_Z b)) at 2.
    by apply Qmult_lt_compat_r.
Qed.

Lemma product_Fin (x y lo1 hi1 lo2 hi2 : Q) :
  (0 <= lo1)%Q -> (lo1 <= x)%Q -> (x <= hi1)%Q ->
  (0 <= lo2)%Q -> (lo2 <= y)%Q -> (y <= hi2)%Q ->
  ∃ p, mul (Fin x) (Fin y) = Fin p ∧
       (lo1 * lo2 <= p)%Q ∧ (p <= hi1 * hi2)%Q.
Proof.
  intros. cbn [mul]. eexists. split; [reflexivity|].
  rewrite Qred_correct. split; apply Qmult_le_compat_nonneg; split; lra.
Qed.

Lemma Qred_inject_Z_mult (a b : Z) :
  Qred (inject_Z a * inject_Z b) = inject_Z (a * b).
Proof.
  rewrite <- (inject_Z_Qred (a * b)). apply Qred_complete.
  by rewrite inject_Z_mult.
Qed.

(** *** Liquidation *)





(** *** Sandwich and flash loan *)

(** X29.  For draws of [Math.random()], [executeSandwich] reports
    success with a profit between 0.25 and 3.75 and a gas of 300000, and
    [executeFlashLoan] reports success with a profit between 2 and 50 and
    a gas of 500000; neither looks at the opportunity. *)
Theorem quick_strategies
    (hex : num -> string) (rand : nat -> num) (opportunity : Opportunity) :
  unitStream rand ->
  (∃ p,
      executeSandwich hex rand opportunity
      = {| success := true; profit := Fin p;
           txHash := Some ("0x" ++ hex (rand 2%nat));
           gasUsed := Some #300000; error := None |} ∧
      (Qmake 1 4 <= p)%Q ∧ (p <= Qmake 15 4)%Q) ∧
  (∃ p,
      executeFlashLoan hex rand opportunity
      = {| success := true; profit := Fin p;
           txHash := Some ("0x" ++ hex (rand 2%nat));
           gasUsed := Some #500000; error := None |} ∧
      (2 <= p)%Q ∧ (p <= 50)%Q).
Proof.
  intros Hrand. split.
  - unfold executeSandwich.
    destruct (affine_draw 50 200 (rand 0%nat) (Hrand _))
      as (s & -> & Hs0 & Hs1); [lra|].
    destruct (affine_draw 0.01 0.02 (rand 1%nat) (Hrand _))
      as (l & -> & Hl0 & Hl1); [lra|].
    destruct (product_Fin s l 50 250 (Qmake 1 100) (Qmake 3 100))
      as (p & -> & Hp0 & Hp1); try lra.
    change #0.5 with (Fin (Qmake 1 2)). cbn [mul].
    eexists. split; [reflexivity|]. rewrite Qred_correct.
    assert (50 * Qmake 1 100 == Qmake 1 2)%Q as E1 by reflexivity.
    assert (250 * Qmake 3 100 == Qmake 15 2)%Q as E2 by reflexivity.
    rewrite E1 in Hp0. rewrite E2 in Hp1. split; lra.
  - unfold executeFlashLoan.
    destruct (affine_draw 1000 4000 (rand 0%nat) (Hrand _))
      as (s & -> & Hs0 & Hs1); [lra|].
    destruct (affine_draw 0.002 0.008 (rand 1%nat) (Hrand _))
      as (l & -> & Hl0 & Hl1); [lra|].
    destruct (product_Fin s l 1000 5000 (Qmake 1 500) (Qmake 1 100))
      as (p & -> & Hp0 & Hp1); try lra.
    eexists. split; [reflexivity|].
    assert (1000 * Qmake 1 500 == 2)%Q as E1 by reflexivity.
    assert (5000 * Qmake 1 100 == 50)%Q as E2 by reflexivity.
    rewrite E1 in Hp0. rewrite E2 in Hp1. split; lra.
Qed.

Lemma quick_strategies_witness :
  (∃ p, profit (executeSandwich eights quarters breachOnEthereum) = Fin p ∧
        (Qmake 1 4 <= p)%Q ∧ (p <= Qmake 15 4)%Q) ∧
  (∃ p, profit (executeFlashLoan eights quarters breachOnEthereum) = Fin p ∧
        (2 <= p)%Q ∧ (p <= 50)%Q).
Proof.
  destruct (quick_strategies eights quarters breachOnEthereum)
    as [(p1 & E1 & H1) (p2 & E2 & H2)].
  - intros k. exists (Qmake 1 4). split; [reflexivity|]. split; lra.
  - split; [exists p1|exists p2]; (split; [|done]).
    + by rewrite E1.
    + by rewrite E2.
Defined.

(** *** Mass liquidation *)

Lemma wave_profit (r1 r2 r3 : num) :
  within 0 1 r1 -> within 0 1 r2 -> within 0 1 r3 ->
  ∃ p,
    mul (mul (add #10 (floor (mul r1 #20))) (add #20 (mul r2 #80)))
        (add #0.08 (mul r3 #0.05))
    = Fin p ∧ (16 <= p)%Q ∧ (p <= 377)%Q.
Proof.
  intros H1 H2 H3.
  destruct (whole_draw 10 20 r1 H1) as (n & Hn & Hn0 & Hn1); [lia|].
  change (Fin (inject_Z 10)) with #10 in Hn.
  change (Fin (inject_Z 20)) with #20 in Hn. rewrite Hn.
  destruct (affine_draw 20 80 r2 H2) as (a & -> & Ha0 & Ha1); [lra|].
  destruct (affine_draw 0.08 0.05 r3 H3) as (b & -> & Hb0 & Hb1); [lra|].
  assert (10 <= inject_Z (10 + n))%Q as Hp0.
  { change 10%Q with (inject_Z 10). rewrite <- Zle_Qle. lia. }
  assert (inject_Z (10 + n) <= 29)%Q as Hp1.
  { change 29%Q with (inject_Z 29). rewrite <- Zle_Qle. lia. }
  destruct (product_Fin (inject_Z (10 + n)) a 10 29 20 100)
    as (pa & -> & Hpa0 & Hpa1); try lra.
  assert (10 * 20 == 200)%Q as E1 by reflexivity.
  assert (29 * 100 == 2900)%Q as E2 by reflexivity.
  rewrite E1 in Hpa0. rewrite E2 in Hpa1.
  destruct (product_Fin pa b 200 2900 (Qmake 2 25) (Qmake 13 100))
    as (p & -> & Hp0' & Hp1'); try lra.
  exists p. split; [done|].
  assert (200 * Qmake 2 25 == 16)%Q as E3 by reflexivity.
  assert (2900 * Qmake 13 100 == 377)%Q as E4 by reflexivity.
  rewrite E3 in Hp0'. rewrite E4 in Hp1'. split; lra.
Qed.

Lemma wave_loop_total (rand : nat -> num) (z : Z) :
  unitStream rand ->
  ∀ (remaining wave : nat) (t : Q),
    Z.of_nat (wave + remaining) = Z.max z (Z.of_nat wave) ->
    ∃ t',
      (∀ fuel, (remaining < fuel)%nat ->
         wave_loop fuel rand (Fin (inject_Z z)) wave (Fin t)
         = Some (Fin t', (wave + remaining)%nat)) ∧
      (t + 16 * inject_Z (Z.of_nat remaining) <= t')%Q ∧
      (t' <= t + 377 * inject_Z (Z.of_nat remaining))%Q.
Proof.
  intros Hrand. induction remaining as [|remaining IH]; intros wave t Hz.
  - exists t. split.
    + intros [|fuel] Hfuel; [lia|]. cbn [wave_loop].
      assert (ltb (of_nat wave) (Fin (inject_Z z)) = false) as ->.
      { apply not_true_is_false. unfold of_nat.
        rewrite ltb_Fin, <- Zlt_Qlt. lia. }
      by rewrite Nat.add_0_r.
    + change (inject_Z (Z.of_nat 0)) with 0%Q. split; lra.
  - destruct (wave_profit (rand (1 + 3 * wave)%nat)
                (rand (2 + 3 * wave)%nat) (rand (3 + 3 * wave)%nat))
      as (p & Hp & Hp0 & Hp1); [apply Hrand..|].
    destruct (IH (S wave) (Qred (t + p))) as (t' & Hrun & Hlo & Hhi); [lia|].
    exists t'. split.
    + intros [|fuel] Hfuel; [lia|]. cbn [wave_loop].
      assert (ltb (of_nat wave) (Fin (inject_Z z)) = true) as ->.
      { unfold of_nat. rewrite ltb_Fin, <- Zlt_Qlt. lia. }
      rewrite Hp. cbn [add]. rewrite Hrun by lia.
      f_equal. f_equal. lia.
    + rewrite Qred_correct in Hlo, Hhi.
      rewrite Nat2Z.inj_succ, <- Z.add_1_r, inject_Z_plus.
      change (inject_Z 1) with 1%Q. split; lra.
Qed.

(** X30.  For draws of [Math.random()], [executeMassLiquidation] ends
    after 3 to 7 waves and reports success, with a profit between 16 and
    377 per wave and a gas of 1000000 per wave. *)
Theorem executeMassLiquidation_outcomes
    (hex : num -> string) (rand : nat -> num) (opportunity : Opportunity) :
  unitStream rand ->
  ∃ (waves : Z) (total : Q),
    (3 <= waves <= 7)%Z ∧
    (∀ fuel, (7 < fuel)%nat ->
       executeMassLiquidation fuel hex rand opportunity
       = Some {| success := true;
                 profit := Fin total;
                 txHash :=
                   Some ("0x" ++ hex (rand (1 + 3 * Z.to_nat waves)%nat));
                 gasUsed := Some (Fin (inject_Z (waves * 1000000)));
                 error := None |}) ∧
    (16 * inject_Z waves <= total)%Q ∧
    (total <= 377 * inject_Z waves)%Q.
Proof.
  intros Hrand. unfold executeMassLiquidation.
  destruct (whole_draw 3 5 (rand 0%nat) (Hrand _)) as (n & Hn & Hn0 & Hn1);
    [lia|].
  change (Fin (inject_Z 3)) with #3 in Hn.
  change (Fin (inject_Z 5)) with #5 in Hn. rewrite Hn.
  destruct (wave_loop_total rand (3 + n) Hrand (Z.to_nat (3 + n)) 0 0)
    as (t' & Hrun & Hlo & Hhi); [lia|].
  exists (3 + n)%Z, t'. split; [lia|]. split.
  - intros fuel Hfuel. change #0 with (Fin 0).
    rewrite (Hrun fuel) by lia. cbn [mbind option_bind].
    change #1000000 with (Fin (inject_Z 1000000)). cbn [mul].
    by rewrite Qred_inject_Z_mult.
  - rewrite Z2Nat.id in Hlo, Hhi by lia. split; lra.
Qed.

Lemma executeMassLiquidation_outcomes_witness :
  ∃ (waves : Z) (total : Q),
    (3 <= waves <= 7)%Z ∧
    (∃ result,
        executeMassLiquidation 8 eights quarters breachOnEthereum
        = Some result ∧ profit result = Fin total) ∧
    (16 * inject_Z waves <= total)%Q ∧
    (total <= 377 * inject_Z waves)%Q.
Proof.
  destruct (executeMassLiquidation_outcomes eights quarters breachOnEthereum)
    as (waves & total & Hw & Hrun & Hlo & Hhi).
  - intros k. exists (Qmake 1 4). split; [reflexivity|]. split; lra.
  - exists waves, total. split; [exact Hw|].
    split; [|split; [exact Hlo|exact Hhi]].
    eexists. split; [apply (Hrun 8%nat); lia|reflexivity].
Defined.

End StrategyFacts.

(** ** The ledger: invariants, persistence and analytics *)

Module LedgerMore.
Import JS NumFacts NumMore JsonFacts Attribution LedgerFacts.
Import Count LedgerAnalytics LedgerTerms SortFacts TopFacts.

(** *** What a sequence of calls keeps *)

Lemma recordEvent_dom signalId eventData now l :
  dom (chains (recordEvent signalId eventData now l)) = dom (chains l) ∧
  profits (recordEvent signalId eventData now l) = profits l.
Proof.
  unfold recordEvent. destruct (chains l !! signalId) as [chain|] eqn:E;
    [|done].
  cbn [chains profits]. split; [|done].
  by apply dom_insert_lookup_L.
Qed.

Lemma recordProfit_dom signalId profitData now l d :
  dom (chains (recordProfit signalId profitData now l d).1.2)
    = dom (chains l) ∧
  dom (profits l)
    ⊆ dom (profits (recordProfit signalId profitData now l d).1.2).
Proof.
  destruct (chains l !! signalId) as [chain|] eqn:E.
  - rewrite (recordProfit_ledger _ _ _ _ _ _ E). cbn [chains profits].
    split; [by apply dom_insert_lookup_L|apply dom_insert_subseteq].
  - by rewrite recordProfit_missing.
Qed.

Lemma step_ledger (s : Ledger * Disk) (c : Call) :
  fst (step s c)
  = match c with
    | CallRecordEvent signalId eventData now =>
        recordEvent signalId eventData now (fst s)
    | CallRecordProfit signalId profitData now =>
        (recordProfit signalId profitData now (fst s) (snd s)).1.2
    end.
Proof.
  destruct c as [id ed now|id pd now]; [done|]. cbn [step].
  by destruct (recordProfit id pd now s.1 s.2) as [[o l] d].
Qed.

(** X9.  No sequence of [recordEvent] and [recordProfit] calls creates
    or removes a chain: the ledger has the same signal ids afterwards.
    Profit records are never removed: every transaction hash with a
    record before has one afterwards. *)
Theorem run_keeps_chains (calls : list Call) (s : Ledger * Disk) :
  dom (chains (fst (run calls s))) = dom (chains (fst s)) ∧
  dom (profits (fst s)) ⊆ dom (profits (fst (run calls s))).
Proof.
  revert s. induction calls as [|c calls IH]; intros s; [done|].
  cbn [run foldl]. destruct (IH (step s c)) as [Hc Hp].
  unfold run in Hc, Hp. rewrite Hc. rewrite step_ledger in *.
  destruct c as [id ed now|id pd now].
  - destruct (recordEvent_dom id ed now (fst s)) as [-> E].
    split; [done|]. by rewrite E in Hp.
  - destruct (recordProfit_dom id pd now (fst s) (snd s)) as [-> E].
    split; [done|]. by etransitivity.
Qed.

(** *** Events are only appended *)

Lemma recordEvent_events signalId eventData now l chain :
  chains l !! signalId = Some chain ->
  chains (recordEvent signalId eventData now l) !! signalId
  = Some {| origin := origin chain;
            jam := jam chain;
            events :=
              events chain
              ++ [ {| ce_timestamp := now;
                      ce_type := ed_type eventData;
                      ce_txHash := ed_txHash eventData;
                      ce_gasUsed := or_num (ed_gasUsed eventData) #0;
                      ce_response :=
                        or_value (ed_response eventData) VNull |} ];
            profit := profit chain;
            status :=
              if String.eqb (ed_type eventData) "BOT_RESPONSE"
              then TRIGGERED
              else if String.eqb (ed_type eventData) "LIQUIDATION_EXECUTED"
                   then PROFITABLE
                   else status chain;
            semanticROI := semanticROI chain |}.
Proof.
  intros E. unfold recordEvent. rewrite E. cbn [chains].
  by rewrite lookup_insert_eq.
Qed.

Lemma step_events (s : Ledger * Disk) (c : Call) (signalId : string)
    (chain : Chain) :
  chains (fst s) !! signalId = Some chain ->
  ∃ chain',
    chains (fst (step s c)) !! signalId = Some chain' ∧
    events chain `prefix_of` events chain' ∧
    length (events chain')
      = (length (events chain) + eventCallsOn signalId [c])%nat ∧
    origin chain' = origin chain ∧
    jam chain' = jam chain.
Proof.
  intros E. rewrite step_ledger.
  destruct c as [target ed now|target pd now];
    unfold eventCallsOn, countIf; cbn [List.filter isEventOn].
  - destruct (String.eqb_spec target signalId) as [->|Hne].
    + rewrite (recordEvent_events _ _ _ _ _ E). eexists. split; [done|].
      cbn [events origin jam]. split; [by apply prefix_app_r|].
      split; [by rewrite length_app|done].
    + rewrite recordEvent_other by done. exists chain.
      split; [done|]. split; [done|]. cbn. split; [lia|done].
  - destruct (decide (target = signalId)) as [->|Hne].
    + rewrite (recordProfit_ledger _ _ _ _ _ _ E). cbn [chains].
      rewrite lookup_insert_eq. eexists. split; [done|].
      cbn. split; [done|]. split; [lia|done].
    + rewrite recordProfit_other by done. exists chain.
      split; [done|]. split; [done|]. cbn. split; [lia|done].
Qed.

(** X10.  The events of a chain are only appended to: after any
    sequence of calls the chain is still there, its former events are a
    prefix of its events, their number has grown by the number of
    [recordEvent] calls made on that chain, and its [origin] and [jam]
    are unchanged. *)
Theorem events_append_only
    (calls : list Call) (s : Ledger * Disk) (signalId : string)
    (chain : Chain) :
  chains (fst s) !! signalId = Some chain ->
  ∃ chain',
    chains (fst (run calls s)) !! signalId = Some chain' ∧
    events chain `prefix_of` events chain' ∧
    length (events chain')
      = (length (events chain) + eventCallsOn signalId calls)%nat ∧
    origin chain' = origin chain ∧
    jam chain' = jam chain.
Proof.
  revert s chain. induction calls as [|c calls IH]; intros s chain E.
  - exists chain. split; [done|]. split; [done|].
    unfold eventCallsOn, countIf. cbn. split; [lia|done].
  - destruct (step_events s c signalId chain E)
      as (c1 & E1 & Hpre1 & Hlen1 & Ho1 & Hj1).
    destruct (IH _ _ E1) as (c2 & E2 & Hpre2 & Hlen2 & Ho2 & Hj2).
    exists c2. split; [exact E2|]. split; [by etransitivity|].
    split; [|split; congruence].
    rewrite Hlen2, Hlen1. unfold eventCallsOn, countIf.
    cbn [List.filter]. destruct (isEventOn signalId c); cbn; lia.
Qed.

Lemma events_append_only_witness :
  ∃ chain',
    chains (fst settledChain) !! sigId = Some chain' ∧
    length (events chain') = 2%nat.
Proof.
  destruct (events_append_only
              [ CallRecordEvent sigId botResponse #1700000000100;
                CallRecordEvent sigId liquidationExecuted #1700000000200;
                CallRecordProfit sigId oneEther #1700000000300 ]
              (taggedLedger, emptyDisk) sigId
              {| origin := feeChange;
                 jam := fst (tagJAM alertJam feeChange sigId #1700000000000
                               emptyLedger);
                 events := []; profit := #0; status := BROADCASTED;
                 semanticROI := None |}
              eq_refl) as (chain' & E & _ & Hlen & _).
  exists chain'. split; [exact E|exact Hlen].
Defined.

(** *** A rejected write *)

(** X11.  When the write is rejected, [recordProfit] on an existing
    chain rejects and the file is untouched, but the update made in
    memory before the write is kept: the chain's profit has grown by the
    net profit, its status is COMPLETED, and the profit record is stored
    under the transaction hash. *)
Theorem recordProfit_rejected_write
    (signalId : string) (profitData : ProfitData) (now : num)
    (l : Ledger) (d : Disk) (chain : Chain) :
  chains l !! signalId = Some chain ->
  rejects d = true ->
  let out := recordProfit signalId profitData now l d in
  (∃ e, out.1.1 = Thrown e) ∧
  out.2 = d ∧
  profitOf signalId out.1.2
    = Some (add (profit chain) (netProfit profitData)) ∧
  statusOf signalId out.1.2 = Some COMPLETED ∧
  p_netProfit <$> profits out.1.2 !! pd_txHash profitData
    = Some (netProfit profitData).
Proof.
  intros E Hfull out. unfold out.
  rewrite (recordProfit_ledger _ _ _ _ _ _ E).
  unfold profitOf, statusOf. cbn [chains profits].
  rewrite !lookup_insert_eq. cbn.
  unfold recordProfit. rewrite E. unfold saveToDatabase. rewrite Hfull.
  cbn. split; [by eexists|]. done.
Qed.

Lemma recordProfit_rejected_write_witness :
  let out := recordProfit sigId oneEther #1700000000300 taggedLedger
               fullDisk in
  (∃ e, out.1.1 = Thrown e) ∧
  out.2 = fullDisk ∧
  profitOf sigId out.1.2 = Some (add #0 (netProfit oneEther)) ∧
  statusOf sigId out.1.2 = Some COMPLETED ∧
  p_netProfit <$> profits out.1.2 !! "0xfeed" = Some (netProfit oneEther).
Proof.
  apply (recordProfit_rejected_write sigId oneEther #1700000000300
           taggedLedger fullDisk
           {| origin := feeChange;
              jam := fst (tagJAM alertJam feeChange sigId #1700000000000
                            emptyLedger);
              events := []; profit := #0; status := BROADCASTED;
              semanticROI := None |});
    reflexivity.
Defined.

(** *** What a recorded profit leaves on disk *)

Lemma written_file_loads (m previous : Maps) (now : num) (w : nat) (r : bool) :
  storable_map (m_chains m) ->
  storable_map (m_profits m) ->
  loadFromDatabase
    {| file :=
         stringify (VObj [ ("chains", entries_value (m_chains m));
                           ("profits", entries_value (m_profits m));
                           ("timestamp", VNum now) ]);
       writes := w; rejects := r |} previous
  = m.
Proof.
  intros Hchains Hprofits.
  destruct (stringify_parse _ (entries_storable _ Hchains))
    as (jc & Hjc & Hpc).
  destruct (stringify_parse _ (entries_storable _ Hprofits))
    as (jp & Hjp & Hpp).
  unfold loadFromDatabase. cbn [file].
  rewrite stringify_obj.
  cbn [written_members omap list_omap fst snd]. rewrite Hjc, Hjp.
  destruct (stringify (VNum now)) as [jt|] eqn:Hjt;
    [|by destruct now as [?| | |]].
  cbn [fmap option_fmap option_map parse map fst snd read_prop].
  rewrite Hpc, Hpp.
  change (get_prop "chains" _) with (entries_value (m_chains m)).
  change (get_prop "profits" _) with (entries_value (m_profits m)).
  cbn [mbind option_bind]. rewrite !newMap_entries. by destruct m.
Qed.

(** X12.  When the write is accepted, [recordProfit] on an existing
    chain resolves to a report and writes the file once; if every value
    of the resulting maps is storable, [loadFromDatabase] on the written
    file rebuilds exactly the maps of the resulting ledger, whatever the
    maps were before the load. *)
Theorem recordProfit_durable
    (signalId : string) (profitData : ProfitData) (now : num)
    (l : Ledger) (d : Disk) (chain : Chain) (previous : Maps) :
  chains l !! signalId = Some chain ->
  rejects d = false ->
  let out := recordProfit signalId profitData now l d in
  storable_map (m_chains (ledger_maps out.1.2)) ->
  storable_map (m_profits (ledger_maps out.1.2)) ->
  (∃ report, out.1.1 = Returned (Some report)) ∧
  writes out.2 = S (writes d) ∧
  loadFromDatabase out.2 previous = ledger_maps out.1.2.
Proof.
  intros E Hwrite out. unfold out.
  rewrite (recordProfit_ledger _ _ _ _ _ _ E).
  intros Hchains Hprofits.
  unfold recordProfit. rewrite E. unfold saveToDatabase. rewrite Hwrite.
  cbn [fst snd writes]. split; [by eexists|]. split; [done|].
  by apply written_file_loads.
Qed.

Lemma recordProfit_durable_witness :
  let out := recordProfit sigId oneEther #1700000000300 taggedLedger
               emptyDisk in
  (∃ report, out.1.1 = Returned (Some report)) ∧
  writes out.2 = 1%nat ∧
  loadFromDatabase out.2 {| m_chains := ∅; m_profits := ∅ |}
    = ledger_maps out.1.2.
Proof.
  apply (recordProfit_durable sigId oneEther #1700000000300 taggedLedger
           emptyDisk
           {| origin := feeChange;
              jam := fst (tagJAM alertJam feeChange sigId #1700000000000
                            emptyLedger);
              events := []; profit := #0; status := BROADCASTED;
              semanticROI := None |}
           {| m_chains := ∅; m_profits := ∅ |} eq_refl eq_refl).
  - apply map_Forall_to_list. vm_compute. repeat constructor.
  - apply map_Forall_to_list. vm_compute. repeat constructor.
Defined.

(** *** Tagging *)

Lemma get_set_prop (key : string) (v : value) (props : list (string * value)) :
  get_prop key (set_prop key v props) = v.
Proof.
  unfold get_prop. induction props as [|[k x] rest IH]; cbn.
  - by rewrite String.eqb_refl.
  - destruct (String.eqb k key) eqn:E; cbn; rewrite E; cbn; [done|].
    destruct (list_find _ (set_prop key v rest)) as [[i [k' x']]|];
      cbn in *; done.
Qed.

Lemma get_set_prop_other (key other : string) (v : value)
    (props : list (string * value)) :
  other ≠ key ->
  get_prop other (set_prop key v props) = get_prop other props.
Proof.
  intros Hne. unfold get_prop.
  induction props as [|[k x] rest IH]; cbn.
  - destruct (String.eqb_spec key other) as [->|_]; done.
  - destruct (String.eqb_spec k key) as [->|Hk]; cbn.
    + destruct (String.eqb_spec key other) as [->|_]; done.
    + destruct (String.eqb k other); cbn; [done|].
      destruct (list_find _ (set_prop key v rest)) as [[i [k1 x1]]|],
               (list_find _ rest) as [[j [k2 x2]]|]; cbn in *; done.
Qed.

(** X13.  [tagJAM] returns the payload with its [attribution] replaced:
    every other property reads as in [jamData], and [attribution] is an
    object holding the signal id and, as [expectedCascade], the square of
    the source's weight.  The chain stored under the signal id is a fresh
    one (the source, the tagged payload, no events, profit 0, status
    BROADCASTED), replacing any chain stored under that id; the other
    chains and the profit records are unchanged. *)
Theorem tagJAM_tags
    (jamData : list (string * value)) (semanticSource : Origin)
    (signalId : string) (now : num) (l : Ledger) :
  let tagged := tagJAM jamData semanticSource signalId now l in
  (∃ props attribution,
      fst tagged = VObj props ∧
      (∀ key, key ≠ "attribution" ->
         get_prop key props = get_prop key jamData) ∧
      get_prop "attribution" props = VObj attribution ∧
      get_prop "signalId" attribution = VStr signalId ∧
      get_prop "expectedCascade" attribution
        = VNum (pow (o_weight semanticSource) 2)) ∧
  chains (snd tagged) !! signalId
    = Some {| origin := semanticSource; jam := fst tagged; events := [];
              profit := #0; status := BROADCASTED; semanticROI := None |} ∧
  (∀ other, other ≠ signalId ->
     chains (snd tagged) !! other = chains l !! other) ∧
  profits (snd tagged) = profits l.
Proof.
  intros tagged. unfold tagged, tagJAM. cbn [fst snd chains profits].
  split.
  - eexists _, _. split; [done|].
    split; [intros key Hkey; by apply get_set_prop_other|].
    split; [apply get_set_prop|]. done.
  - split; [by rewrite lookup_insert_eq|]. split; [|done].
    intros other Hne. by rewrite lookup_insert_ne.
Qed.

(** *** The per-type analysis *)




Lemma countIf_length {A} (test : A -> bool) (l : list A) :
  (countIf test l <= length l)%nat.
Proof.
  unfold countIf. induction l as [|x l IH]; [done|].
  cbn [List.filter]. destruct (test x); cbn; lia.
Qed.

Lemma countIf_perm {A} (test : A -> bool) (l1 l2 : list A) :
  l1 ≡ₚ l2 -> countIf test l1 = countIf test l2.
Proof.
  unfold countIf. induction 1 as [|x l1 l2 _ IH|x y l|l1 l2 l3 _ IH1 _ IH2].
  - done.
  - cbn [List.filter]. destruct (test x); cbn; lia.
  - cbn [List.filter]. by destruct (test x), (test y).
  - congruence.
Qed.

(** A share of a nonzero count, as a percentage. *)
Lemma rate_between (k n : nat) :
  (k <= n)%nat -> n ≠ 0%nat ->
  between 0 100 (mul (div (of_nat k) (of_nat n)) #100).
Proof.
  intros Hkn Hn. unfold of_nat.
  assert (0 < inject_Z (Z.of_nat n))%Q as Hpos.
  { change 0%Q with (inject_Z 0). rewrite <- Zlt_Qlt. lia. }
  assert (0 <= inject_Z (Z.of_nat k))%Q as Hk.
  { change 0%Q with (inject_Z 0). rewrite <- Zle_Qle. lia. }
  assert (inject_Z (Z.of_nat k) <= inject_Z (Z.of_nat n))%Q as Hle.
  { rewrite <- Zle_Qle. lia. }
  rewrite div_Fin by (intros H0; rewrite H0 in Hpos; by apply Qlt_irrefl in Hpos).
  cbn [mul lit]. eexists. split; [reflexivity|].
  rewrite !Qred_correct.
  set (a := inject_Z (Z.of_nat k)) in *. set (b := inject_Z (Z.of_nat n)) in *.
  assert (0 <= a / b)%Q as H1.
  { apply Qle_shift_div_l; [done|]. by rewrite Qmult_0_l. }
  assert (a / b <= 1)%Q as H2.
  { apply Qle_shift_div_r; [done|]. by rewrite Qmult_1_l. }
  split; lra.
Qed.




(** *** The dashboard *)

Lemma chainValues_length (l : Ledger) :
  length (chainValues l) = size (chains l).
Proof. unfold chainValues. by rewrite length_fmap, length_map_to_list. Qed.

(** X15.  In the dashboard summary [totalSignals] is the number of
    chains and [completedSignals] a count that does not exceed it.  On an
    empty ledger [successRate] and [avgProfitPerSignal] are NaN; on any
    other ledger [successRate] lies between 0 and 100. *)
Theorem getDashboard_rates (now : num) (l : Ledger) :
  let s := summary (getDashboard now l) in
  totalSignals s = of_nat (size (chains l)) ∧
  (∃ completed,
      completedSignals s = of_nat completed ∧
      (completed <= size (chains l))%nat) ∧
  (chains l = ∅ -> successRate s = NaN ∧ avgProfitPerSignal s = NaN) ∧
  (chains l ≠ ∅ -> between 0 100 (successRate s)).
Proof.
  intros s. unfold s, getDashboard.
  cbn [summary totalSignals completedSignals successRate avgProfitPerSignal].
  split; [done|]. split; [|split].
  - eexists. split; [done|]. rewrite <- chainValues_length.
    apply (countIf_length isCompleted).
  - intros Hempty. unfold chainValues. rewrite Hempty, map_to_list_empty.
    rewrite map_size_empty. by vm_compute.
  - intros Hne. apply rate_between.
    + rewrite <- chainValues_length. apply (countIf_length isCompleted).
    + by intros H0%map_size_empty_inv.
Qed.




(** *** A recorded profit on the dashboard *)

Lemma chainValues_insert (l : Ledger) (signalId : string)
    (chain chain' : Chain) :
  chains l !! signalId = Some chain ->
  ∃ others,
    snd <$> map_to_list (chains l) ≡ₚ chain :: others ∧
    snd <$> map_to_list (<[signalId := chain']> (chains l))
      ≡ₚ chain' :: others.
Proof.
  intros E. exists (snd <$> map_to_list (delete signalId (chains l))).
  split.
  - by rewrite <- (map_to_list_delete _ _ _ E).
  - rewrite <- insert_delete_eq.
    by rewrite map_to_list_insert by apply lookup_delete_eq.
Qed.

(** X17.  Recording a profit on an existing chain leaves the
    dashboard's [totalSignals] unchanged and raises [completedSignals] by
    one, unless the chain was already COMPLETED, in which case it
    stays. *)
Theorem recordProfit_on_dashboard
    (signalId : string) (profitData : ProfitData) (now now1 now2 : num)
    (l : Ledger) (d : Disk) (chain : Chain) :
  chains l !! signalId = Some chain ->
  let before := summary (getDashboard now1 l) in
  let after :=
    summary (getDashboard now2
               (recordProfit signalId profitData now l d).1.2) in
  totalSignals after = totalSignals before ∧
  completedSignals after
    = (if isCompleted chain
       then completedSignals before
       else add (completedSignals before) #1).
Proof.
  intros E before after. unfold before, after.
  rewrite (recordProfit_ledger _ _ _ _ _ _ E).
  unfold getDashboard, chainValues.
  cbn [summary totalSignals completedSignals chains].
  split.
  - f_equal. apply map_size_insert_Some. by eexists.
  - match goal with
    | |- context [<[signalId := ?c]> (chains l)] =>
        destruct (chainValues_insert l signalId chain c E)
          as (others & Hold & Hnew)
    end.
    pose proof (countIf_perm isCompleted _ _ Hold) as Hbefore.
    pose proof (countIf_perm isCompleted _ _ Hnew) as Hafter.
    unfold countIf in Hbefore, Hafter. rewrite Hbefore, Hafter.
    cbn [List.filter isCompleted status].
    destruct (isCompleted chain); cbn [length]; [done|].
    by rewrite of_nat_succ.
Qed.

Lemma recordProfit_on_dashboard_witness :
  let before := summary (getDashboard #1700000000250 taggedLedger) in
  let after :=
    summary (getDashboard #1700000000350
               (recordProfit sigId oneEther #1700000000300 taggedLedger
                  emptyDisk).1.2) in
  totalSignals after = totalSignals before ∧
  completedSignals after = add (completedSignals before) #1.
Proof.
  apply (recordProfit_on_dashboard sigId oneEther #1700000000300
           #1700000000250 #1700000000350 taggedLedger emptyDisk
           {| origin := feeChange;
              jam := fst (tagJAM alertJam feeChange sigId #1700000000000
                            emptyLedger);
              events := []; profit := #0; status := BROADCASTED;
              semanticROI := None |} eq_refl).
Defined.

End LedgerMore.

(** ** The range of the scorer *)

Module ScorerMore.
Import JS NumFacts NumMore Scorer ScorerFacts Count.


End ScorerMore.

(** ** Drawing from an array *)

Module ArrayFacts.
Import JS NumFacts NumMore Count Arrays.

Lemma at_index_whole {A} (items : list A) (z : Z) :
  (0 <= z)%Z ->
  at_index items (Fin (inject_Z z)) = items !! Z.to_nat z.
Proof.
  intros Hz. unfold at_index. rewrite Qfloor_Z, Qeq_bool_refl.
  assert (Qle_bool 0 (inject_Z z) = true) as ->; [|done].
  apply Qle_bool_iff. change 0%Q with (inject_Z 0). by rewrite <- Zle_Qle.
Qed.

(** A draw picks the element whose turn it is. *)
Lemma pick_spec {A} (items : list A) (q : Q) :
  (0 <= q)%Q -> (q < 1)%Q -> items ≠ [] ->
  ∃ i x,
    pick items (Fin q) = Some x ∧
    items !! i = Some x ∧
    (inject_Z (Z.of_nat i) <= q * inject_Z (Z.of_nat (length items)))%Q ∧
    (q * inject_Z (Z.of_nat (length items)) < inject_Z (Z.of_nat i) + 1)%Q.
Proof.
  intros Hlo Hhi Hne. unfold pick, of_nat. cbn [mul floor].
  set (n := inject_Z (Z.of_nat (length items))).
  assert (0 < n)%Q as Hn.
  { unfold n. change 0%Q with (inject_Z 0). rewrite <- Zlt_Qlt.
    destruct items; [done|]. cbn [length]. lia. }
  set (z := Qfloor (Qred (q * n))).
  assert (inject_Z z <= q * n)%Q as Hz1.
  { unfold z. rewrite <- (Qred_correct (q * n)) at 2. apply Qfloor_le. }
  assert (q * n < inject_Z z + 1)%Q as Hz2.
  { unfold z. rewrite <- (Qred_correct (q * n)) at 1.
    rewrite <- (inject_Z_plus _ 1). apply Qlt_floor. }
  assert (0 <= z)%Z as Hz0.
  { unfold z. change 0%Z with (Qfloor 0). apply Qfloor_resp_le.
    rewrite Qred_correct. by apply Qmult_le_0_compat; [|apply Qlt_le_weak]. }
  assert (z < Z.of_nat (length items))%Z as Hzn.
  { rewrite Zlt_Qlt. fold n. apply (Qle_lt_trans _ (q * n)); [done|].
    rewrite <- (Qmult_1_l n) at 2. by apply Qmult_lt_compat_r. }
  rewrite at_index_whole by done.
  destruct (lookup_lt_is_Some_2 items (Z.to_nat z)) as [x Hx]; [lia|].
  exists (Z.to_nat z), x. rewrite Z2Nat.id by done. done.
Qed.

End ArrayFacts.

(** ** [ETHExtractor] *)

Module EthFacts.
Import JS NumFacts NumMore Scorer Count Arrays ArrayFacts EthExtractor.

(** *** The signal of a turn *)

(** X19.  For every draw of [Math.random()], [getNextSignal] returns a
    signal.  The signal fails the test [semanticWeight >= 8] of
    [runDaemon] exactly when the draw lies from 1/2 up to, not including,
    3/4 (the oracle update); a signal that passes has cascade potential
    100, and its protocol is "all" or one of the three listed ones. *)
Theorem getNextSignal_threshold (random : num) :
  within 0 1 random ->
  ∃ signal,
    getNextSignal random = Returned signal ∧
    (geb (es_semanticWeight signal) #8 = false
     <-> within (Qmake 1 2) (Qmake 3 4) random) ∧
    (geb (es_semanticWeight signal) #8 = true ->
     es_cascadePotential signal = #100 ∧
     (es_protocol signal = "all" ∨ listedProtocol (es_protocol signal))).
Proof.
  intros (q & -> & Hlo & Hhi). unfold getNextSignal.
  destruct (pick_spec signals q Hlo Hhi) as (i & x & -> & Hx & H1 & H2);
    [done|].
  eexists. split; [reflexivity|].
  change (inject_Z (Z.of_nat (length signals))) with (Qmake 4 1) in H1, H2.
  destruct i as [|[|[|[|i]]]]; cbn in Hx; try done;
    injection Hx as <-; unfold inject_Z in H1, H2;
    cbv [Z.of_nat Pos.of_succ_nat Pos.succ] in H1, H2.
  - split; [|intros _; split; [done|right; unfold listedProtocol; tauto]].
    split; [by vm_compute|]. intros (q' & [= <-] & Ha & Hb). exfalso. lra.
  - split; [|intros _; split; [done|right; unfold listedProtocol; tauto]].
    split; [by vm_compute|]. intros (q' & [= <-] & Ha & Hb). exfalso. lra.
  - split; [|by vm_compute]. split; [|done].
    intros _. exists q. split; [done|]. split; lra.
  - split; [|intros _; split; [done|by left]].
    split; [by vm_compute|]. intros (q' & [= <-] & Ha & Hb). exfalso. lra.
Qed.

Lemma getNextSignal_threshold_witness :
  ∃ signal,
    getNextSignal #0.6 = Returned signal ∧
    geb (es_semanticWeight signal) #8 = false.
Proof.
  destruct (getNextSignal_threshold #0.6) as (signal & E & [_ Hskip] & _).
  - exists (Qmake 3 5). split; [reflexivity|]. split; lra.
  - exists signal. split; [exact E|]. apply Hskip.
    exists (Qmake 3 5). split; [reflexivity|]. split; lra.
Defined.

(** *** The targets of a signal *)

Lemma findTargets_loop_counts (hex : num -> string) (rand : nat -> num)
    (signal : Signal) (z : Z) (remaining i : nat) (targets : list Target) :
  Z.of_nat (i + remaining) = Z.max z (Z.of_nat i) ->
  ∀ fuel, (remaining < fuel)%nat ->
    findTargets_loop fuel hex rand signal (Fin (inject_Z z)) i targets
    = Some (targets ++ (targetAt hex rand signal <$> seq i remaining))%list.
Proof.
  revert i targets.
  induction remaining as [|remaining IH]; intros i targets Hz fuel Hfuel;
    (destruct fuel as [|fuel]; [lia|]); cbn [findTargets_loop].
  - assert (ltb (of_nat i) (Fin (inject_Z z)) = false) as ->.
    { apply not_true_is_false. unfold of_nat. rewrite ltb_Fin, <- Zlt_Qlt. lia. }
    cbn. by rewrite app_nil_r.
  - assert (ltb (of_nat i) (Fin (inject_Z z)) = true) as ->.
    { unfold of_nat. rewrite ltb_Fin, <- Zlt_Qlt. lia. }
    rewrite IH by lia. cbn [seq fmap list_fmap].
    by rewrite <- app_assoc.
Qed.

Lemma numTargets_finite (signal : Signal) (q : Q) :
  es_cascadePotential signal = Fin q ->
  floor (div (es_cascadePotential signal) #10)
  = Fin (inject_Z (Qfloor (q / 10))).
Proof.
  intros ->. change #10 with (Fin 10). rewrite div_Fin by done.
  cbn [floor]. by rewrite Qred_correct.
Qed.


Lemma findTargets_closed (hex : num -> string) (rand : nat -> num)
    (signal : Signal) (q : Q) (fuel : nat) :
  es_cascadePotential signal = Fin q ->
  (Z.to_nat (Qfloor (q / 10)) < fuel)%nat ->
  findTargets fuel hex rand signal
  = Some (targetAt hex rand signal <$> seq 0 (Z.to_nat (Qfloor (q / 10)))).
Proof.
  intros E Hfuel. unfold findTargets. rewrite (numTargets_finite _ _ E).
  by rewrite (findTargets_loop_counts _ _ _ _ (Z.to_nat (Qfloor (q / 10))))
    by lia.
Qed.

Lemma cycle_listed (i : nat) :
  ∃ name, protocolCycle !! (i mod 3)%nat = Some name ∧
          nth (i mod 3) protocolCycle "" = name ∧
          listedProtocol name.
Proof.
  pose proof (Nat.mod_upper_bound i 3) as Hlt.
  unfold listedProtocol.
  destruct (i mod 3)%nat as [|[|[|k]]]; cbn; [eauto 6..|lia].
Qed.

Lemma targetAt_plausible (hex : num -> string) (rand : nat -> num)
    (signal : Signal) (i : nat) :
  unitStream rand ->
  es_protocol signal = "all" ∨ listedProtocol (es_protocol signal) ->
  plausible signal i (targetAt hex rand signal i).
Proof.
  intros Hrand Hprotocol. unfold plausible, targetAt.
  cbn [tg_healthFactor tg_collateral tg_protocol].
  destruct (Hrand (3 * i + 1)%nat) as (h & -> & Hh0 & Hh1).
  destruct (Hrand (3 * i + 2)%nat) as (c & -> & Hc0 & Hc1).
  split; [|split].
  - change #1.0 with (Fin 1). change #0.05 with (Fin (Qmake 1 20)).
    cbn [mul add]. eexists. split; [reflexivity|].
    rewrite !Qred_correct. split; lra.
  - change #100 with (Fin 100). cbn [mul]. eexists.
    split; [reflexivity|]. rewrite Qred_correct. split; lra.
  - destruct (cycle_listed i) as (name & Hname & -> & Hlisted).
    destruct (String.eqb_spec (es_protocol signal) "all") as [E|Hne].
    + done.
    + split; [|done]. by destruct Hprotocol.
Qed.



(** *** Liquidations *)


Lemma liquidate_aave (send : Target -> Outcome unit) (target : Target) :
  tg_protocol target = "aave" ->
  liquidate send target
  = match send target with
    | Returned _ => Returned (mul (mul (tg_collateral target) #0.5) #0.05)
    | Thrown _ => Returned #0
    end.
Proof. intros E. unfold liquidate. rewrite E. reflexivity. Qed.

Lemma liquidate_compound (send : Target -> Outcome unit) (target : Target) :
  tg_protocol target = "compound" ->
  liquidate send target
  = match send target with
    | Returned _ => Returned (mul (mul (tg_collateral target) #0.5) #0.08)
    | Thrown _ => Returned #0
    end.
Proof. intros E. unfold liquidate. rewrite E. reflexivity. Qed.

Lemma liquidate_maker (send : Target -> Outcome unit) (target : Target) :
  tg_protocol target = "maker" ->
  liquidate send target
  = Returned (mul (mul (tg_collateral target) #0.5) #0.13).
Proof. intros E. unfold liquidate. rewrite E. reflexivity. Qed.

Lemma half_share_bounds (c b : Q) :
  (0 <= c)%Q -> (c < 100)%Q -> (0 <= b)%Q -> (b <= Qmake 13 100)%Q ->
  between 0 (Qmake 13 2) (mul (mul (Fin c) #0.5) (Fin b)).
Proof.
  intros Hc0 Hc1 Hb0 Hb1. change #0.5 with (Fin (Qmake 1 2)). cbn [mul].
  eexists. split; [reflexivity|]. rewrite !Qred_correct.
  assert (c * Qmake 1 2 * b == Qmake 1 2 * (c * b))%Q as -> by ring.
  assert (0 <= c * b)%Q as Hcb0 by (by apply Qmult_le_0_compat).
  assert (c * b <= 100 * b)%Q as Hcb1.
  { apply Qmult_le_compat_r; [by apply Qlt_le_weak|done]. }
  split; lra.
Qed.

Lemma zero_bounds : between 0 (Qmake 13 2) #0.
Proof. exists 0%Q. split; [reflexivity|]. split; lra. Qed.

(** A liquidation on a listed protocol returns, and what it returns is
    bounded. *)
Lemma liquidate_bounded (send : Target -> Outcome unit) (target : Target) :
  listedProtocol (tg_protocol target) ->
  within 0 100 (tg_collateral target) ->
  ∃ profit,
    liquidate send target = Returned profit ∧
    between 0 (Qmake 13 2) profit.
Proof.
  intros Hlisted (c & Hc & Hc0 & Hc1).
  destruct Hlisted as [E | [E | E]].
  - rewrite (liquidate_aave _ _ E), Hc.
    destruct (send target) as [u|e]; eexists; (split; [done|]);
      [apply (half_share_bounds c (Qmake 1 20)); done || lra
      |apply zero_bounds].
  - rewrite (liquidate_compound _ _ E), Hc.
    destruct (send target) as [u|e]; eexists; (split; [done|]);
      [apply (half_share_bounds c (Qmake 2 25)); done || lra
      |apply zero_bounds].
  - rewrite (liquidate_maker _ _ E), Hc. eexists. split; [done|].
    apply (half_share_bounds c (Qmake 13 100)); done || lra.
Qed.

(** X22.  For a target of a listed protocol with a collateral from 0 up
    to, not including, 100, [liquidate] returns a profit between 0 and
    6.5.  When the protocol is maker, or the transaction goes through, the
    profit is half the collateral times the protocol's rate (0.05 for
    aave, 0.08 for compound, 0.13 for maker); a maker liquidation thus
    reports its profit whatever happens to transactions.  When the
    transaction of an aave or compound liquidation fails, the profit
    is 0. *)
Theorem liquidate_listed (send : Target -> Outcome unit) (target : Target) :
  listedProtocol (tg_protocol target) ->
  within 0 100 (tg_collateral target) ->
  ∃ bonus profit,
    listedBonus (tg_protocol target) bonus ∧
    (liquidate send target = Returned profit) ∧
    between 0 (Qmake 13 2) profit ∧
    (tg_protocol target = "maker" ∨ (∃ u, send target = Returned u) ->
     profit = mul (mul (tg_collateral target) #0.5) bonus) ∧
    (tg_protocol target ≠ "maker" -> (∃ e, send target = Thrown e) ->
     profit = #0).
Proof.
  intros Hlisted Hrange.
  destruct (liquidate_bounded send target Hlisted Hrange)
    as (profit & Hrun & Hbounds).
  unfold listedBonus.
  destruct Hlisted as [E | [E | E]].
  - exists #0.05, profit. rewrite (liquidate_aave _ _ E) in Hrun.
    split; [by left|]. rewrite (liquidate_aave _ _ E).
    split; [done|]. split; [done|]. rewrite E.
    destruct (send target) as [u|e]; injection Hrun as <-.
    + split; [done|]. by intros _ (e & He).
    + split; [|done]. intros [?|(u & Hu)]; done.
  - exists #0.08, profit. rewrite (liquidate_compound _ _ E) in Hrun.
    split; [by right; left|]. rewrite (liquidate_compound _ _ E).
    split; [done|]. split; [done|]. rewrite E.
    destruct (send target) as [u|e]; injection Hrun as <-.
    + split; [done|]. by intros _ (e & He).
    + split; [|done]. intros [?|(u & Hu)]; done.
  - exists #0.13, profit. rewrite (liquidate_maker _ _ E) in Hrun.
    split; [by right; right|]. rewrite (liquidate_maker _ _ E).
    split; [done|]. split; [done|]. injection Hrun as <-. done.
Qed.

Lemma liquidate_listed_witness :
  liquidate refused makerTarget = Returned #2.6 ∧
  liquidate refused aaveTarget = Returned #0.
Proof.
  split.
  - destruct (liquidate_listed refused makerTarget)
      as (bonus & profit & Hbonus & -> & _ & Hpaid & _).
    + right; right; reflexivity.
    + exists 40%Q. split; [reflexivity|]. split; lra.
    + rewrite Hpaid by (left; reflexivity).
      destruct Hbonus as [[H _]|[[H _]|[_ ->]]]; [discriminate H..|].
      reflexivity.
  - destruct (liquidate_listed refused aaveTarget)
      as (bonus & profit & _ & -> & _ & _ & Hlost).
    + left; reflexivity.
    + exists 40%Q. split; [reflexivity|]. split; lra.
    + rewrite Hlost; [reflexivity|discriminate|by eexists].
Defined.



(** *** A turn of the daemon *)

Lemma liquidateAll_total (send : Target -> Outcome unit)
    (targets : list Target) (p : Q) :
  Forall (fun target => listedProtocol (tg_protocol target) ∧
                        within 0 100 (tg_collateral target)) targets ->
  ∃ p',
    liquidateAll send targets (Fin p) = Returned (Fin p') ∧
    (p <= p')%Q ∧
    (p' <= p + Qmake 13 2 * inject_Z (Z.of_nat (length targets)))%Q.
Proof.
  intros Hall. revert p.
  induction Hall as [|target rest [Hlisted Hc] _ IH]; intros p.
  - exists p. split; [done|]. cbn [length].
    change (inject_Z (Z.of_nat 0)) with 0%Q. split; lra.
  - destruct (liquidate_bounded send target Hlisted Hc)
      as (profit & Hrun & (x & -> & Hx0 & Hx1)).
    cbn [liquidateAll]. rewrite Hrun. cbn [add].
    destruct (IH (Qred (p + x))) as (p' & -> & Hlo & Hhi).
    exists p'. split; [done|]. rewrite Qred_correct in Hlo, Hhi.
    cbn [length]. rewrite Nat2Z.inj_succ, <- Z.add_1_r, inject_Z_plus.
    change (inject_Z 1) with 1%Q. split; lra.
Qed.

Lemma getNextSignal_drawn (q : Q) :
  (0 <= q)%Q -> (q < 1)%Q ->
  ∃ i drawn,
    signals !! i = Some drawn ∧
    getNextSignal (Fin q)
    = Returned
        {| es_type := cd_type drawn;
           es_protocol := cd_protocol drawn;
           es_eventType := cd_eventType drawn;
           es_semanticWeight :=
             semanticWeight
               (calculateCascade {| ev_type := cd_eventType drawn |});
           es_cascadePotential :=
             cascadePotential
               (calculateCascade {| ev_type := cd_eventType drawn |}) |} ∧
    (inject_Z (Z.of_nat i) <= q * 4)%Q ∧
    (q * 4 < inject_Z (Z.of_nat i) + 1)%Q.
Proof.
  intros Hlo Hhi. unfold getNextSignal.
  destruct (pick_spec signals q Hlo Hhi) as (i & x & -> & Hx & H1 & H2);
    [done|].
  by exists i, x.
Qed.

(** X24.  One turn of the daemon's loop, for draws of [Math.random()]
    and a finite running total: the turn ends without throwing, whatever
    happens to the transactions; the total does not decrease and grows by
    at most 65; and it is unchanged when the first draw lies from 1/2 up
    to, not including, 3/4. *)
Theorem daemonTurn_total
    (hex : num -> string) (send : Target -> Outcome unit)
    (random : num) (rand : nat -> num) (p : Q) :
  within 0 1 random ->
  unitStream rand ->
  ∃ p',
    (∀ fuel, (10 < fuel)%nat ->
       daemonTurn fuel hex send random rand (Fin p)
       = Some (Returned (Fin p'))) ∧
    (p <= p')%Q ∧
    (p' <= p + 65)%Q ∧
    (within (Qmake 1 2) (Qmake 3 4) random -> p' = p).
Proof.
  intros (q & -> & Hlo & Hhi) Hrand. unfold daemonTurn.
  destruct (getNextSignal_drawn q Hlo Hhi) as (i & x & Hx & -> & H1 & H2).
  assert (∀ drawn,
            cd_eventType drawn = "parameterChange"
            ∨ cd_eventType drawn = "goingConcern" ->
            cd_protocol drawn = "all" ∨ listedProtocol (cd_protocol drawn) ->
            ¬ within (Qmake 1 2) (Qmake 3 4) (Fin q) ->
            ∃ p',
              (∀ fuel, (10 < fuel)%nat ->
                 (if geb (semanticWeight
                            (calculateCascade
                               {| ev_type := cd_eventType drawn |})) #8
                  then
                    targets ← findTargets fuel hex rand
                      {| es_type := cd_type drawn;
                         es_protocol := cd_protocol drawn;
                         es_eventType := cd_eventType drawn;
                         es_semanticWeight :=
                           semanticWeight
                             (calculateCascade
                                {| ev_type := cd_eventType drawn |});
                         es_cascadePotential :=
                           cascadePotential
                             (calculateCascade
                                {| ev_type := cd_eventType drawn |}) |};
                    Some (liquidateAll send targets (Fin p))
                  else Some (Returned (Fin p)))
                 = Some (Returned (Fin p'))) ∧
              (p <= p')%Q ∧ (p' <= p + 65)%Q ∧
              (within (Qmake 1 2) (Qmake 3 4) (Fin q) -> p' = p)) as Hacts.
  { intros drawn Htype Hprotocol Hout.
    set (signal := {| es_type := cd_type drawn |}).
    assert (semanticWeight
              (calculateCascade {| ev_type := cd_eventType drawn |}) = #10
            ∧ cascadePotential
                (calculateCascade {| ev_type := cd_eventType drawn |})
              = Fin 100) as [Hw Hcp].
    { by destruct Htype as [-> | ->]. }
    assert (es_cascadePotential signal = Fin 100) as E by exact Hcp.
    pose proof (findTargets_closed hex rand signal 100) as Hfound.
    change (Z.to_nat (Qfloor (100 / 10))) with 10%nat in Hfound.
    destruct (liquidateAll_total send
                (targetAt hex rand signal <$> seq 0 10) p)
      as (p' & Hsum & Hp0 & Hp1).
    { apply Forall_fmap, Forall_forall. intros k _.
      destruct (targetAt_plausible hex rand signal k Hrand Hprotocol)
        as (_ & Hc & Hl & _). done. }
    exists p'. split; [|split; [done|split; [|done]]].
    - intros fuel Hfuel. rewrite Hw. change (geb #10 #8) with true.
      cbn iota. rewrite (Hfound fuel E Hfuel). cbn [mbind option_bind].
      by rewrite Hsum.
    - rewrite length_fmap, length_seq in Hp1.
      change (inject_Z (Z.of_nat 10)) with (Qmake 10 1) in Hp1. lra. }
  destruct i as [|[|[|[|i]]]]; cbn in Hx; try done;
    injection Hx as <-; unfold inject_Z in H1, H2;
    cbv [Z.of_nat Pos.of_succ_nat Pos.succ] in H1, H2.
  - apply Hacts; [by left|right; unfold listedProtocol; cbn; tauto|].
    intros (q' & [= <-] & Ha & Hb). lra.
  - apply Hacts; [by left|right; unfold listedProtocol; cbn; tauto|].
    intros (q' & [= <-] & Ha & Hb). lra.
  - exists p. split; [done|]. split; [lra|]. split; [lra|done].
  - apply Hacts; [by right|by left|].
    intros (q' & [= <-] & Ha & Hb). lra.
Qed.

Lemma daemonTurn_total_witness :
  ∃ p',
    daemonTurn 11 noDigits refused #0.9 halves (Fin 3)
    = Some (Returned (Fin p')) ∧
    (3 <= p')%Q ∧ (p' <= 3 + 65)%Q.
Proof.
  destruct (daemonTurn_total noDigits refused #0.9 halves 3)
    as (p' & Hturn & Hlo & Hhi & _).
  - exists (Qmake 9 10). split; [reflexivity|]. split; lra.
  - intros k. exists (Qmake 1 2). split; [reflexivity|]. split; lra.
  - exists p'. split; [apply Hturn; lia|]. split; [exact Hlo|exact Hhi].
Defined.

End EthFacts.

(** ** [CausalExtractor] *)

Module CausalFacts.
Import JS NumFacts NumMore Scorer Count Arrays ArrayFacts CausalExtractor.




End CausalFacts.

(** ** [Alice] and [Bob] *)

Module YieldFacts.
Import JS NumFacts NumMore Scorer Count Arrays ArrayFacts YieldExtractor.

Lemma strategies_lookup (effect : string) :
  match strategies !! effect with
  | Some strategy =>
      knownEffect effect ∧
      ∃ k, (0 <= k)%Q ∧ (k <= 20)%Q ∧ strategy = (fun random => mul random (Fin k))
  | None => ¬ knownEffect effect
  end.
Proof.
  unfold strategies, knownEffect.
  destruct (list_to_map strategy_table !! effect) as [strategy|] eqn:E.
  - apply elem_of_list_to_map_2 in E. unfold strategy_table in E.
    apply elem_of_cons in E as [E|E].
    { injection E as -> ->. split; [tauto|]. exists 10%Q.
      split; [lra|split; [lra|reflexivity]]. }
    apply elem_of_cons in E as [E|E].
    { injection E as -> ->. split; [tauto|]. exists 15%Q.
      split; [lra|split; [lra|reflexivity]]. }
    apply elem_of_cons in E as [E|E].
    { injection E as -> ->. split; [tauto|]. exists 20%Q.
      split; [lra|split; [lra|reflexivity]]. }
    by apply elem_of_nil in E.
  - apply not_elem_of_list_to_map in E. cbn in E.
    rewrite !elem_of_cons, elem_of_nil in E. tauto.
Qed.

(** X26.  [Bob.extract] throws exactly when the signal's effect is none
    of LIQUIDATE_VAULTS, LIQUIDATE_POSITIONS and LIQUIDATE_DEFI, whatever
    the draw. *)
Theorem extract_throws_iff (signal : Signal) (random : num) :
  (∃ e, extract signal random = Thrown e)
  <-> ¬ knownEffect (nt_effect (ys_notice signal)).
Proof.
  unfold extract.
  pose proof (strategies_lookup (nt_effect (ys_notice signal))) as H.
  destruct (strategies !! nt_effect (ys_notice signal)) as [strategy|].
  - destruct H as [Hknown _]. split; [by intros (e & He)|done].
  - split; [done|]. intros _. by eexists.
Qed.

(** X27.  One tick of [mine], for draws of [Math.random()] and a finite
    running total: [Alice.watch] returns a signal of semantic weight 10
    and cascade potential 100 whose effect [Bob.extract] knows; the tick
    does not throw; the total does not decrease and grows by at most
    200. *)
Theorem mineTurn_total (random1 random2 : num) (p : Q) :
  within 0 1 random1 ->
  within 0 1 random2 ->
  ∃ signal p',
    watch random1 = Returned signal ∧
    ys_semanticWeight signal = #10 ∧
    ys_cascadePotential signal = #100 ∧
    knownEffect (nt_effect (ys_notice signal)) ∧
    mineTurn random1 random2 (Fin p) = Returned (Fin p') ∧
    (p <= p')%Q ∧ (p' <= p + 200)%Q.
Proof.
  intros (q & -> & Hq0 & Hq1) (r & -> & Hr0 & Hr1).
  unfold mineTurn, watch.
  destruct (pick_spec signals q Hq0 Hq1) as (i & x & -> & Hx & _); [done|].
  assert (semanticWeight (calculateCascade {| ev_type := nt_eventType x |})
          = #10
          ∧ cascadePotential
              (calculateCascade {| ev_type := nt_eventType x |}) = Fin 100
          ∧ knownEffect (nt_effect x)) as (Hw & Hcp & Hknown).
  { unfold knownEffect.
    destruct i as [|[|[|i]]]; cbn in Hx; try done; injection Hx as <-;
      cbn [nt_effect]; (split; [done|split; [done|tauto]]). }
  eexists. 
  pose proof (strategies_lookup (nt_effect x)) as Hs.
  unfold extract. cbn [ys_notice ys_cascadePotential].
  destruct (strategies !! nt_effect x) as [strategy|]; [|done].
  destruct Hs as (_ & k & Hk0 & Hk1 & ->). rewrite Hcp.
  change (div (Fin 100) #10) with (Fin 10). cbn [mul add].
  eexists. split; [reflexivity|]. cbn [ys_semanticWeight ys_cascadePotential ys_notice].
  split; [done|]. split; [done|]. split; [done|]. split; [reflexivity|].
  rewrite !Qred_correct.
  assert (0 <= r * k)%Q as H0 by (by apply Qmult_le_0_compat).
  assert (r * k <= 1 * k)%Q as H1.
  { apply Qmult_le_compat_r; [by apply Qlt_le_weak|done]. }
  split; lra.
Qed.

Lemma mineTurn_total_witness :
  ∃ p', mineTurn #0.7 #0.5 (Fin 1) = Returned (Fin p') ∧
        (1 <= p')%Q ∧ (p' <= 1 + 200)%Q.
Proof.
  destruct (mineTurn_total #0.7 #0.5 1)
    as (signal & p' & _ & _ & _ & _ & E & Hlo & Hhi).
  - exists (Qmake 7 10). split; [reflexivity|]. split; lra.
  - exists (Qmake 1 2). split; [reflexivity|]. split; lra.
  - exists p'. split; [exact E|]. split; [exact Hlo|exact Hhi].
Defined.

End YieldFacts.
